(** * Session and scheduling controller of the gomoku client

    A shallow embedding of the React hooks that sequence engine calls:
    [useGame] (move pipeline), [useAutoPlay] (auto-play scheduler),
    [useSelfPlay] (self-play tracker) and the error banner of [App].

    Conventions of the embedding.
    - A [useState] cell is a record field; a setter replaces the field.
    - A callback built by [useCallback] reads the values captured by the
      render that created it; these are passed to the model as the record
      of the latest render.
    - [await invoke(cmd, args)] is a transition of an external engine
      [World]; the engine is a parameter of the development.
    - A ghost [trace] records the engine calls, the stone sound and the
      rating refresh, in the order the code performs them. *)

From Stdlib Require Import ZArith List String Ascii Bool QArith Qround Lia.
From Stdlib Require Import DecimalString.
From Stdlib Require Floats.
Import ListNotations.

Local Open Scope string_scope.
Local Open Scope Z_scope.

(** JavaScript truthiness of [T | null] for a [T] that is never falsy
    (objects, the non-empty literals ['B'], ['W'], ['B_WIN'], ...). *)
Definition truthy {A : Type} (v : option A) : bool :=
  match v with
  | Some _ => true
  | None => false
  end.

(** JavaScript truthiness of [string | null]: the empty string is falsy. *)
Definition truthy_string (v : option string) : bool :=
  match v with
  | Some s => negb (String.eqb s "")
  | None => false
  end.

(** ** src/types.ts *)
Module Types.

Inductive Player := B | W.
Inductive GameResult := B_WIN | W_WIN | DRAW.
Inductive RuleSetKind := standard.

Record Move := {
  move_x : Z;
  move_y : Z;
  move_player : Player;
  move_t : option Z
}.

Inductive GameMode :=
| human_vs_ai (humanColor : Player)
| ai_vs_ai (blackId whiteId : string)
| human_vs_human.

(** [mode.type] *)
Definition mode_type (m : GameMode) : string :=
  match m with
  | human_vs_ai _ => "human_vs_ai"
  | ai_vs_ai _ _ => "ai_vs_ai"
  | human_vs_human => "human_vs_human"
  end.

Record GameSnapshot := {
  boardSize : Z;
  board : list (option Player);
  ruleSet : RuleSetKind;
  toMove : Player;
  result : option GameResult;
  moves : list Move;
  mode : GameMode;
  canHumanMove : bool
}.

Record SelfPlayReport := {
  report_gamesPerPair : Z;
  totalGames : Z;
  completedGames : Z;
  stopped : bool
}.

Record SelfPlayProgress := {
  completed : Z;
  total : Z;
  percent : Q
}.

(** [Array.from({ length: size * size }, () => null)] *)
Definition emptyBoard (size : Z) : list (option Player) :=
  repeat None (Z.to_nat (size * size)).

Definition defaultGameMode : GameMode := human_vs_ai B.

End Types.

(** ** The move pipeline: hooks/useGame.ts *)
Module UseGame.
Import Types.

Definition defaultSnapshot : GameSnapshot := {|
  boardSize := 15;
  board := emptyBoard 15;
  ruleSet := standard;
  toMove := B;
  result := None;
  moves := [];
  mode := defaultGameMode;
  canHumanMove := true
|}.

(** The engine commands the hook issues, with their arguments. *)
Inductive Command :=
| get_state
| new_game (m : option GameMode)
| make_move (x y : Z)
| ai_move
| load_game (path : string).

Definition cmd_name (c : Command) : string :=
  match c with
  | get_state => "get_state"
  | new_game _ => "new_game"
  | make_move _ _ => "make_move"
  | ai_move => "ai_move"
  | load_game _ => "load_game"
  end.

(** How the promise of [invoke] settles. *)
Inductive Outcome :=
| Resolved (snapshot : GameSnapshot)
| Rejected (err : string).

(** What [call] handed back to its caller: the snapshot, or [null]
    after it stored the message in [error]. *)
Inductive CallResult :=
| Returned (snapshot : GameSnapshot)
| Failed (message : string).

Inductive Event :=
| EvCall (c : Command) (r : CallResult)
| EvStoneSound
| EvRatingsChanged.

(** The four [useState] cells of the hook. *)
Record Hook := {
  game : GameSnapshot;
  busy : bool;
  error : option string;
  canRetryAi : bool
}.

Definition initial : Hook := {|
  game := defaultSnapshot;
  busy := false;
  error := None;
  canRetryAi := false
|}.

(** [game.board[index]]: [undefined] outside the array. *)
Definition board_at (g : GameSnapshot) (index : Z) : option Player :=
  if index <? 0 then None
  else match nth_error (board g) (Z.to_nat index) with
       | Some cell => cell
       | None => None
       end.

(** The four guards at the head of [makeMove], as one test on the
    cells the callback captured. *)
Definition makeMove_blocked (h : Hook) (x y : Z) : bool :=
  busy h || truthy (result (game h)) || negb (canHumanMove (game h))
  || truthy (board_at (game h) (y * boardSize (game h) + x)).

(** The test that decides whether the automatic reply is issued. *)
Definition reply_owed (snapshot : GameSnapshot) (autoTriggerAi : bool) : bool :=
  negb (truthy (result snapshot)) && autoTriggerAi
  && String.eqb (mode_type (mode snapshot)) "human_vs_ai"
  && negb (canHumanMove snapshot).

Section Gateway.
Variable World : Type.
Variable invoke : Command -> World -> Outcome * World.
Variable isTauri : bool.

Record Sys := {
  hook : Hook;
  world : World;
  trace : list Event
}.

Definition M (A : Type) : Type := Sys -> A * Sys.

Definition ret {A : Type} (a : A) : M A := fun s => (a, s).

Definition bind {A C : Type} (m : M A) (k : A -> M C) : M C :=
  fun s => let (a, s') := m s in k a s'.

Definition modify_hook (f : Hook -> Hook) : M unit :=
  fun s => (tt, {| hook := f (hook s); world := world s; trace := trace s |}).

Definition emit (e : Event) : M unit :=
  fun s => (tt, {| hook := hook s; world := world s; trace := trace s ++ [e] |}).

Definition setGame (g : GameSnapshot) : M unit :=
  modify_hook (fun h =>
    {| game := g; busy := busy h; error := error h; canRetryAi := canRetryAi h |}).

Definition setBusy (b : bool) : M unit :=
  modify_hook (fun h =>
    {| game := game h; busy := b; error := error h; canRetryAi := canRetryAi h |}).

Definition setError (e : option string) : M unit :=
  modify_hook (fun h =>
    {| game := game h; busy := busy h; error := e; canRetryAi := canRetryAi h |}).

Definition setCanRetryAi (b : bool) : M unit :=
  modify_hook (fun h =>
    {| game := game h; busy := busy h; error := error h; canRetryAi := b |}).

(** [await invoke<T>(cmd, args)] *)
Definition await_invoke (c : Command) : M Outcome :=
  fun s => let (o, w) := invoke c (world s) in
           (o, {| hook := hook s; world := w; trace := trace s |}).

Definition playStoneSound : M unit := emit EvStoneSound.

(** [await onRatingsChanged?.()]: the collaborator acts on the world
    outside the hook. *)
Definition await_onRatingsChanged (cb : option (World -> World)) : M unit :=
  match cb with
  | Some f =>
      fun s => (tt, {| hook := hook s; world := f (world s);
                       trace := trace s ++ [EvRatingsChanged] |})
  | None => ret tt
  end.

Notation "x <- m ;; k" := (bind m (fun x => k))
  (at level 61, m at next level, right associativity).
Notation "m ;;; k" := (bind m (fun _ => k))
  (at level 61, right associativity).

Definition call (c : Command) : M (option GameSnapshot) :=
  if negb isTauri then
    setError (Some "Run via Tauri to enable game commands.") ;;;
    setCanRetryAi false ;;;
    emit (EvCall c (Failed "Run via Tauri to enable game commands.")) ;;;
    ret None
  else
    r <- await_invoke c ;;
    match r with
    | Resolved result =>
        setError None ;;;
        setCanRetryAi false ;;;
        emit (EvCall c (Returned result)) ;;;
        ret (Some result)
    | Rejected err =>
        setError (Some err) ;;;
        setCanRetryAi (String.eqb (cmd_name c) "ai_move") ;;;
        emit (EvCall c (Failed err)) ;;;
        ret None
    end.

Definition refreshState : M unit :=
  snapshot <- call get_state ;;
  match snapshot with
  | Some snapshot => setGame snapshot
  | None => ret tt
  end.

Definition newGame (m : option GameMode) : M unit :=
  snapshot <- call (new_game m) ;;
  match snapshot with
  | Some snapshot => setGame snapshot
  | None => ret tt
  end.

(** [makeMove], as created by the render that saw the cells [r]. *)
Definition makeMove (r : Hook) (x y : Z)
    (onRatingsChanged : option (World -> World)) (autoTriggerAi : bool) : M unit :=
  if busy r || truthy (result (game r)) then ret tt
  else if negb (canHumanMove (game r)) then ret tt
  else
    let index := y * boardSize (game r) + x in
    if truthy (board_at (game r) index) then ret tt
    else
      setBusy true ;;;
      snapshot <- call (make_move x y) ;;
      match snapshot with
      | Some snapshot =>
          setGame snapshot ;;;
          playStoneSound ;;;
          if reply_owed snapshot autoTriggerAi
          then
            aiSnapshot <- call ai_move ;;
            match aiSnapshot with
            | Some aiSnapshot =>
                setGame aiSnapshot ;;;
                playStoneSound ;;;
                if truthy (result aiSnapshot)
                then await_onRatingsChanged onRatingsChanged
                else ret tt
            | None => ret tt
            end
          else if truthy (result snapshot)
          then await_onRatingsChanged onRatingsChanged
          else ret tt
      | None => ret tt
      end ;;;
      setBusy false.

(** [requestAiMove], as created by the render that saw the cells [r]. *)
Definition requestAiMove (r : Hook)
    (onRatingsChanged : option (World -> World)) (force : bool) : M unit :=
  if busy r || (negb force && truthy (result (game r))) then ret tt
  else
    setBusy true ;;;
    snapshot <- call ai_move ;;
    match snapshot with
    | Some snapshot =>
        setGame snapshot ;;;
        playStoneSound ;;;
        if truthy (result snapshot)
        then await_onRatingsChanged onRatingsChanged
        else ret tt
    | None => ret tt
    end ;;;
    setBusy false.

Definition loadGame (path : string) : M unit :=
  snapshot <- call (load_game path) ;;
  match snapshot with
  | Some snapshot => setGame snapshot
  | None => ret tt
  end.

Definition clearError : M unit :=
  setError None ;;;
  setCanRetryAi false.

(** An invocation from the UI of the latest render: the callback's
    captured cells are the current ones, the trace starts empty. *)
Definition start_of (h : Hook) (w : World) : Sys :=
  {| hook := h; world := w; trace := [] |}.

Definition run_makeMove (h : Hook) (w : World) (x y : Z)
    (onRatingsChanged : option (World -> World)) (autoTriggerAi : bool) : Sys :=
  snd (makeMove h x y onRatingsChanged autoTriggerAi (start_of h w)).

Definition run_requestAiMove (h : Hook) (w : World)
    (onRatingsChanged : option (World -> World)) (force : bool) : Sys :=
  snd (requestAiMove h onRatingsChanged force (start_of h w)).

End Gateway.

Arguments hook {World} _.
Arguments world {World} _.
Arguments trace {World} _.

(** A scripted engine: the world is the list of outcomes still to come,
    each [invoke] consumes one; an exhausted script rejects. *)
Definition scripted (c : Command) (w : list Outcome) : Outcome * list Outcome :=
  match w with
  | o :: rest => (o, rest)
  | [] => (Rejected "engine exited", [])
  end.

End UseGame.

(** ** The auto-play scheduler: hooks/useAutoPlay.ts

    The hook instance is a transition system.  A [render] evaluates the
    hook with the caller's options and the current cells and then runs the
    effects whose dependencies differ from those of the previous render
    (first the cleanup of such an effect, then its body).  Handlers and
    timer callbacks are those of the latest render.  The browser's interval
    table and the number of [onStep()] invocations are part of the state. *)
Module UseAutoPlay.

Inductive AutoPlaySpeed := slow | medium | fast.

Definition SPEED_INTERVALS (s : AutoPlaySpeed) : Z :=
  match s with
  | slow => 2000
  | medium => 1000
  | fast => 500
  end.

Definition speed_eqb (a b : AutoPlaySpeed) : bool :=
  match a, b with
  | slow, slow | medium, medium | fast, fast => true
  | _, _ => false
  end.

(** [UseAutoPlayOptions]; [onStep] is the identity of the function object
    the caller passes in this render. *)
Record Options := {
  onStep : nat;
  isGameOver : bool;
  isAiVsAi : bool
}.

(** What one render saw: its options and the two [useState] cells. *)
Record Rendered := {
  options : Options;
  seen_isPlaying : bool;
  seen_speed : AutoPlaySpeed
}.

(** An entry of the browser's interval table; [tick_isGameOver] is the
    [isGameOver] captured by the [step] the callback closes over. *)
Record Interval := {
  interval_id : nat;
  delay : Z;
  tick_isGameOver : bool
}.

Record State := {
  isPlaying : bool;                 (* useState(false) *)
  speed : AutoPlaySpeed;            (* useState('medium') *)
  intervalRef : option nat;         (* useRef<number | null>(null) *)
  steppingRef : bool;               (* useRef(false) *)
  rendered : Rendered;              (* the latest render *)
  playing_cleanup : bool;           (* the playing effect last returned its cleanup *)
  intervals : list Interval;        (* active window intervals *)
  next_interval : nat;              (* next id window.setInterval hands out *)
  steps : nat                       (* onStep() invocations so far *)
}.

Definition setIsPlaying (b : bool) (s : State) : State :=
  {| isPlaying := b; speed := speed s; intervalRef := intervalRef s;
     steppingRef := steppingRef s; rendered := rendered s;
     playing_cleanup := playing_cleanup s; intervals := intervals s;
     next_interval := next_interval s; steps := steps s |}.

Definition setSpeed (sp : AutoPlaySpeed) (s : State) : State :=
  {| isPlaying := isPlaying s; speed := sp; intervalRef := intervalRef s;
     steppingRef := steppingRef s; rendered := rendered s;
     playing_cleanup := playing_cleanup s; intervals := intervals s;
     next_interval := next_interval s; steps := steps s |}.

Definition set_rendered (r : Rendered) (s : State) : State :=
  {| isPlaying := isPlaying s; speed := speed s; intervalRef := intervalRef s;
     steppingRef := steppingRef s; rendered := r;
     playing_cleanup := playing_cleanup s; intervals := intervals s;
     next_interval := next_interval s; steps := steps s |}.

Definition set_playing_cleanup (b : bool) (s : State) : State :=
  {| isPlaying := isPlaying s; speed := speed s; intervalRef := intervalRef s;
     steppingRef := steppingRef s; rendered := rendered s;
     playing_cleanup := b; intervals := intervals s;
     next_interval := next_interval s; steps := steps s |}.

(** [clearInterval(id)] *)
Definition clearInterval (id : nat) (s : State) : State :=
  {| isPlaying := isPlaying s; speed := speed s; intervalRef := intervalRef s;
     steppingRef := steppingRef s; rendered := rendered s;
     playing_cleanup := playing_cleanup s;
     intervals := filter (fun t => negb (Nat.eqb (interval_id t) id)) (intervals s);
     next_interval := next_interval s; steps := steps s |}.

Definition set_intervalRef (v : option nat) (s : State) : State :=
  {| isPlaying := isPlaying s; speed := speed s; intervalRef := v;
     steppingRef := steppingRef s; rendered := rendered s;
     playing_cleanup := playing_cleanup s; intervals := intervals s;
     next_interval := next_interval s; steps := steps s |}.

(** [intervalRef.current = window.setInterval(() => void doStep(), ms)] *)
Definition setInterval_into_ref (ms : Z) (gameOver : bool) (s : State) : State :=
  {| isPlaying := isPlaying s; speed := speed s;
     intervalRef := Some (next_interval s);
     steppingRef := steppingRef s; rendered := rendered s;
     playing_cleanup := playing_cleanup s;
     intervals := {| interval_id := next_interval s; delay := ms;
                     tick_isGameOver := gameOver |} :: intervals s;
     next_interval := S (next_interval s); steps := steps s |}.

Definition clearAutoPlay (s : State) : State :=
  match intervalRef s with
  | Some id => set_intervalRef None (clearInterval id s)
  | None => s
  end.

(** [step] up to its [await]: the latch is taken and [onStep()] issued. *)
Definition step (gameOver : bool) (s : State) : State :=
  if steppingRef s || gameOver then s
  else
    {| isPlaying := isPlaying s; speed := speed s; intervalRef := intervalRef s;
       steppingRef := true; rendered := rendered s;
       playing_cleanup := playing_cleanup s; intervals := intervals s;
       next_interval := next_interval s; steps := S (steps s) |}.

(** The [finally] of [step], when the promise of [onStep()] settles. *)
Definition step_settled (s : State) : State :=
  {| isPlaying := isPlaying s; speed := speed s; intervalRef := intervalRef s;
     steppingRef := false; rendered := rendered s;
     playing_cleanup := playing_cleanup s; intervals := intervals s;
     next_interval := next_interval s; steps := steps s |}.

Definition start (s : State) : State :=
  let o := options (rendered s) in
  if negb (isAiVsAi o) || isGameOver o then s
  else setIsPlaying true s.

Definition stop (s : State) : State :=
  clearAutoPlay (setIsPlaying false s).

(** Body of the effect "Auto-step on interval when playing", run by the
    render [r]. *)
Definition playing_effect (r : Rendered) (s : State) : State :=
  let o := options r in
  if negb (seen_isPlaying r) || isGameOver o || negb (isAiVsAi o) then
    let s := clearAutoPlay s in
    let s := if isGameOver o then setIsPlaying false s else s in
    set_playing_cleanup false s
  else
    let s := step (isGameOver o) s in
    let interval := SPEED_INTERVALS (seen_speed r) in
    let s := setInterval_into_ref interval (isGameOver o) s in
    set_playing_cleanup true s.

(** Body of the effect "Reset when game mode changes". *)
Definition mode_effect (r : Rendered) (s : State) : State :=
  if negb (isAiVsAi (options r)) then clearAutoPlay (setIsPlaying false s)
  else s.

(** Dependencies [isPlaying, isGameOver, isAiVsAi, speed, step,
    clearAutoPlay]: [clearAutoPlay] never changes and [step] changes
    exactly when [onStep] or [isGameOver] does. *)
Definition playing_deps_same (a b : Rendered) : bool :=
  Bool.eqb (seen_isPlaying a) (seen_isPlaying b)
  && Bool.eqb (isGameOver (options a)) (isGameOver (options b))
  && Bool.eqb (isAiVsAi (options a)) (isAiVsAi (options b))
  && speed_eqb (seen_speed a) (seen_speed b)
  && Nat.eqb (onStep (options a)) (onStep (options b)).

(** Dependencies [isAiVsAi, clearAutoPlay]. *)
Definition mode_deps_same (a b : Rendered) : bool :=
  Bool.eqb (isAiVsAi (options a)) (isAiVsAi (options b)).

(** The effect phase of a render [r]: the cleanup of the playing effect
    if that effect re-runs, then the bodies of the effects that re-run,
    in source order. *)
Definition commit (run_playing run_mode : bool) (r : Rendered) (s : State) : State :=
  let s := if run_playing && playing_cleanup s then clearAutoPlay s else s in
  let s := if run_playing then playing_effect r s else s in
  let s := if run_mode then mode_effect r s else s in
  set_rendered r s.

(** A re-render with options [o]: an effect re-runs when its
    dependencies differ from those of the previous render. *)
Definition render (o : Options) (s : State) : State :=
  let r := {| options := o; seen_isPlaying := isPlaying s; seen_speed := speed s |} in
  commit (negb (playing_deps_same (rendered s) r))
         (negb (mode_deps_same (rendered s) r)) r s.

(** First render: fresh cells, both effects run. *)
Definition mount (o : Options) : State :=
  let r := {| options := o; seen_isPlaying := false; seen_speed := medium |} in
  let s := {| isPlaying := false; speed := medium; intervalRef := None;
              steppingRef := false; rendered := r; playing_cleanup := false;
              intervals := []; next_interval := 0; steps := 0 |} in
  mode_effect r (playing_effect r s).

(** The interval [id] fires: its callback runs [doStep]. *)
Definition tick (id : nat) (s : State) : State :=
  match find (fun t => Nat.eqb (interval_id t) id) (intervals s) with
  | Some t => step (tick_isGameOver t) s
  | None => s
  end.

Inductive Action :=
| Render (o : Options)
| Start
| Stop
| SetSpeed (sp : AutoPlaySpeed)
| Step
| Tick (id : nat)
| StepSettled.

Definition act (a : Action) (s : State) : State :=
  match a with
  | Render o => render o s
  | Start => start s
  | Stop => stop s
  | SetSpeed sp => setSpeed sp s
  | Step => step (isGameOver (options (rendered s))) s
  | Tick id => tick id s
  | StepSettled => step_settled s
  end.

Inductive reachable : State -> Prop :=
| reach_mount (o : Options) : reachable (mount o)
| reach_act (a : Action) (s : State) : reachable s -> reachable (act a s).

(** The governing condition of the scheduler, as a render sees it. *)
Definition governing (o : Options) : bool :=
  isAiVsAi o && negb (isGameOver o).

(** The interval table holds nothing but the interval [intervalRef]
    names, and the cleanup that clears it is registered. *)
Definition timer_owned (s : State) : Prop :=
  match intervalRef s with
  | Some id =>
      playing_cleanup s = true
      /\ (id < next_interval s)%nat
      /\ exists t, intervals s = [t] /\ interval_id t = id
  | None => intervals s = []
  end.

(** After a render that saw the governing condition false the
    scheduler is stopped and holds no interval. *)
Definition stopped_when_ungoverned (s : State) : Prop :=
  governing (options (rendered s)) = false ->
  isPlaying s = false /\ intervalRef s = None.

Definition invariant (s : State) : Prop :=
  timer_owned s /\ stopped_when_ungoverned s.

End UseAutoPlay.

(** ** The self-play tracker: hooks/useSelfPlay.ts

    Counts and [Date.now()] readings are integers.  The listener of
    [self_play_progress] computes with them as JavaScript numbers, that
    is in IEEE 754 binary64 ([Number] below); [formatDuration] is also
    given on rationals, for the properties of its layout. *)

(** JavaScript numbers: binary64, every operation rounded to nearest,
    ties to even. *)
Module Number.

(** The number an integer is read as: the nearest double, infinite
    past the range. *)
Definition of_Z (z : Z) : PrimFloat.float :=
  FloatOps.SF2Prim
    (SpecFloat.binary_normalize FloatOps.prec FloatOps.emax z 0 false).

(** [Number.isFinite] *)
Definition isFinite (x : PrimFloat.float) : bool :=
  match FloatOps.Prim2SF x with
  | SpecFloat.S754_zero _ => true
  | SpecFloat.S754_finite _ _ _ => true
  | _ => false
  end.

(** The rational a finite number stands for. *)
Definition to_Q (x : PrimFloat.float) : Q :=
  match FloatOps.Prim2SF x with
  | SpecFloat.S754_finite s m e =>
      let n := if s then Z.neg m else Z.pos m in
      match e with
      | Z.neg p => Qmake n (Pos.pow 2 p)
      | _ => inject_Z (n * 2 ^ e)
      end
  | _ => 0%Q
  end.

(** [Math.floor] of a finite number; the result is an integer. *)
Definition floor (x : PrimFloat.float) : Z := Qfloor (to_Q x).

End Number.

Module UseSelfPlay.
Import Types.

(** [Math.trunc], the rounding inside JavaScript's [%]. *)
Definition trunc (q : Q) : Z :=
  if Qle_bool 0 q then Qfloor q else Qceiling q.

(** [a % b] on numbers. *)
Definition js_rem (a b : Q) : Q :=
  (a - b * inject_Z (trunc (a / b)))%Q.

(** [String(n)] for an integer [n]. *)
Definition String_of (n : Z) : string :=
  DecimalString.NilZero.string_of_int (Z.to_int n).

(** [s.padStart(2, '0')] *)
Definition padStart2 (s : string) : string :=
  match String.length s with
  | O => "00" ++ s
  | S O => "0" ++ s
  | _ => s
  end.

Definition formatDuration (seconds : Q) : string :=
  if Qle_bool seconds 0 then "0s"
  else
    let mins := Qfloor (seconds / 60) in
    let secs := Qfloor (js_rem seconds 60) in
    if 60 <=? mins then
      let hours := mins / 60 in
      let remMins := Z.rem mins 60 in
      String_of hours ++ "h " ++ padStart2 (String_of remMins) ++ "m"
    else if 0 <? mins then
      String_of mins ++ "m " ++ padStart2 (String_of secs) ++ "s"
    else String_of secs ++ "s".

(** Number of decimal digits of a positive integer. *)
Definition digits (z : Z) : Z := Z.of_nat (String.length (String_of z)).

(** [c] reads back as the number whose value is [z]. *)
Definition reads_back (z c : Z) : bool :=
  let x := Number.of_Z c in
  Number.isFinite x && (Number.floor x =? z).

(** The decimal with the fewest significant digits, [k] or more,
    that reads back as the number of value [z], an integer of [n]
    digits; of two such decimals the one nearer to [z], and on a tie
    the one with the even last digit. *)
Fixpoint shortest (z n : Z) (k fuel : nat) : Z :=
  match fuel with
  | O => z
  | S fuel' =>
      if n <=? Z.of_nat k then z
      else
        let p := 10 ^ (n - Z.of_nat k) in
        let lo := z / p * p in
        let hi := lo + p in
        match reads_back z lo, reads_back z hi with
        | true, true =>
            if z - lo <? hi - z then lo
            else if hi - z <? z - lo then hi
            else if Z.even (z / p) then lo else hi
        | true, false => lo
        | false, true => hi
        | false, false => shortest z n (S k) fuel'
        end
  end.

(** A numeral without its trailing zeros. *)
Fixpoint significant (s : string) : string :=
  match s with
  | EmptyString => EmptyString
  | String c rest =>
      match significant rest with
      | EmptyString => if Ascii.eqb c "0" then EmptyString else String c EmptyString
      | rest' => String c rest'
      end
  end.

(** [String(n)] and [`${n}`] for a number [n] whose value is the
    integer [z >= 0] (ECMAScript Number::toString): the shortest
    decimal that reads back as [n], in full below 10^21 and with an
    exponent from there on.  Up to 2^53 it is the numeral of [z]. *)
Definition String_of_number (z : Z) : string :=
  let c := if z <=? 0 then 0 else shortest z (digits z) 1 17 in
  let e := digits c in
  if e <=? 21 then String_of c
  else
    match significant (String_of c) with
    | String d EmptyString => String d "e+" ++ String_of (e - 1)
    | String d rest => String d ("." ++ rest) ++ "e+" ++ String_of (e - 1)
    | EmptyString => EmptyString
    end.

(** [formatDuration] as the listener runs it, on a binary64 argument:
    the quotients are rounded before [Math.floor], [%] is exact. *)
Definition formatDuration_number (seconds : PrimFloat.float) : string :=
  if negb (Number.isFinite seconds) || PrimFloat.leb seconds (Number.of_Z 0)
  then "0s"
  else
    let mins := Number.floor (PrimFloat.div seconds (Number.of_Z 60)) in
    let secs := Qfloor (js_rem (Number.to_Q seconds) 60) in
    if 60 <=? mins then
      let hours :=
        Number.floor (PrimFloat.div (Number.of_Z mins) (Number.of_Z 60)) in
      let remMins := Z.rem mins 60 in
      String_of_number hours ++ "h "
        ++ padStart2 (String_of_number remMins) ++ "m"
    else if 0 <? mins then
      String_of_number mins ++ "m "
        ++ padStart2 (String_of_number secs) ++ "s"
    else String_of_number secs ++ "s".

(** The [useState] cells of the hook and the anchor [startRef]. *)
Record State := {
  busy : bool;
  progress : option SelfPlayProgress;
  report : option SelfPlayReport;
  eta : option string;
  error : option string;
  gamesPerPair : Z;
  parallelism : Z;
  minLevel : Z;
  maxLevel : Z;
  includeLlm : bool;
  llmIds : list string;
  startRef : option Z
}.

Definition initial : State := {|
  busy := false; progress := None; report := None; eta := None;
  error := None; gamesPerPair := 30; parallelism := 4; minLevel := 1;
  maxLevel := 12; includeLlm := false; llmIds := []; startRef := None
|}.

Definition setBusy (b : bool) (s : State) : State :=
  {| busy := b; progress := progress s; report := report s; eta := eta s;
     error := error s; gamesPerPair := gamesPerPair s;
     parallelism := parallelism s; minLevel := minLevel s;
     maxLevel := maxLevel s; includeLlm := includeLlm s;
     llmIds := llmIds s; startRef := startRef s |}.

Definition setProgress (p : option SelfPlayProgress) (s : State) : State :=
  {| busy := busy s; progress := p; report := report s; eta := eta s;
     error := error s; gamesPerPair := gamesPerPair s;
     parallelism := parallelism s; minLevel := minLevel s;
     maxLevel := maxLevel s; includeLlm := includeLlm s;
     llmIds := llmIds s; startRef := startRef s |}.

Definition setReport (r : option SelfPlayReport) (s : State) : State :=
  {| busy := busy s; progress := progress s; report := r; eta := eta s;
     error := error s; gamesPerPair := gamesPerPair s;
     parallelism := parallelism s; minLevel := minLevel s;
     maxLevel := maxLevel s; includeLlm := includeLlm s;
     llmIds := llmIds s; startRef := startRef s |}.

Definition setEta (e : option string) (s : State) : State :=
  {| busy := busy s; progress := progress s; report := report s; eta := e;
     error := error s; gamesPerPair := gamesPerPair s;
     parallelism := parallelism s; minLevel := minLevel s;
     maxLevel := maxLevel s; includeLlm := includeLlm s;
     llmIds := llmIds s; startRef := startRef s |}.

Definition setError (e : option string) (s : State) : State :=
  {| busy := busy s; progress := progress s; report := report s; eta := eta s;
     error := e; gamesPerPair := gamesPerPair s;
     parallelism := parallelism s; minLevel := minLevel s;
     maxLevel := maxLevel s; includeLlm := includeLlm s;
     llmIds := llmIds s; startRef := startRef s |}.

Definition set_startRef (t : option Z) (s : State) : State :=
  {| busy := busy s; progress := progress s; report := report s; eta := eta s;
     error := error s; gamesPerPair := gamesPerPair s;
     parallelism := parallelism s; minLevel := minLevel s;
     maxLevel := maxLevel s; includeLlm := includeLlm s;
     llmIds := llmIds s; startRef := t |}.

(** [!startRef.current]: [null] and [0] are falsy. *)
Definition anchor_unset (s : State) : bool :=
  match startRef s with
  | Some t => t =? 0
  | None => true
  end.

(** [startRef.current] read as a number after the anchoring step. *)
Definition anchor (s : State) : Z :=
  match startRef s with
  | Some t => t
  | None => 0
  end.

(** The estimate of the listener, in the spec's words and in the
    arithmetic of the code: with timestamps in milliseconds,
    elapsedSeconds = (now - anchorTime) / 1000 and
    remainingSeconds = (total - completed) * (elapsedSeconds / completed),
    each operation on binary64 numbers. *)
Definition elapsedSeconds (anchorTime now : Z) : PrimFloat.float :=
  PrimFloat.div
    (PrimFloat.sub (Number.of_Z now) (Number.of_Z anchorTime))
    (Number.of_Z 1000).

Definition remainingSeconds (anchorTime now : Z) (p : SelfPlayProgress)
    : PrimFloat.float :=
  PrimFloat.mul
    (PrimFloat.sub (Number.of_Z (total p)) (Number.of_Z (completed p)))
    (PrimFloat.div (elapsedSeconds anchorTime now)
       (Number.of_Z (completed p))).

(** Listener of [self_play_progress]; [now1] and [now2] are the two
    readings of [Date.now()] it takes, in order.  The payload counts
    are integers, compared with [0] as such and used as numbers in
    the estimate. *)
Definition on_progress (now1 now2 : Z) (payload : SelfPlayProgress) (s : State) : State :=
  let s := setProgress (Some payload) s in
  let s := if anchor_unset s then set_startRef (Some now1) s else s in
  if (0 <? completed payload) && (0 <? total payload) then
    let elapsed :=
      PrimFloat.div
        (PrimFloat.sub (Number.of_Z now2) (Number.of_Z (anchor s)))
        (Number.of_Z 1000) in
    let remaining :=
      PrimFloat.mul
        (PrimFloat.sub (Number.of_Z (total payload))
           (Number.of_Z (completed payload)))
        (PrimFloat.div elapsed (Number.of_Z (completed payload))) in
    setEta (Some (formatDuration_number remaining)) s
  else setEta None s.

(** Listener of [self_play_done], up to its [await onComplete()]. *)
Definition on_done (payload : SelfPlayReport) (s : State) : State :=
  let s := setReport (Some payload) s in
  let s := setBusy false s in
  let s := setProgress None s in
  let s := set_startRef None s in
  setEta None s.

(** Listener of [self_play_error]. *)
Definition on_error (payload : string) (s : State) : State :=
  let s := setError (Some payload) s in
  let s := setBusy false s in
  let s := setProgress None s in
  let s := set_startRef None s in
  setEta None s.

(** Arguments of [start_self_play]. *)
Record StartArgs := {
  arg_gamesPerPair : Z;
  arg_parallelism : Z;
  arg_includeLlm : bool;
  arg_llmIds : list string;
  arg_minLevel : Z;
  arg_maxLevel : Z
}.

(** How [invoke<boolean>('start_self_play', ...)] settles; [None] is the
    [null] the source tests for. *)
Inductive StartOutcome :=
| StartResolved (result : option bool)
| StartRejected (err : string).

(** The cells as [start] leaves them just before it awaits [invoke]. *)
Definition start_prologue (now : Z) (s : State) : State :=
  let s := setBusy true s in
  let s := setReport None s in
  let s := setProgress None s in
  let s := set_startRef (Some now) s in
  let s := setEta None s in
  setError None s.

Definition start_args (r : State) : StartArgs :=
  {| arg_gamesPerPair := gamesPerPair r;
     arg_parallelism := parallelism r;
     arg_includeLlm := includeLlm r;
     arg_llmIds := if includeLlm r then llmIds r else [];
     arg_minLevel := minLevel r;
     arg_maxLevel := maxLevel r |}.

(** [start], as created by the render that saw the cells [r]; [engine]
    answers the job-start call.  The second component is the call
    issued, if any. *)
Definition start (r : State) (now : Z) (engine : StartArgs -> StartOutcome)
    (s : State) : State * option StartArgs :=
  if busy r then (s, None)
  else
    let s := start_prologue now s in
    let args := start_args r in
    match engine args with
    | StartResolved result =>
        match result with
        | None => (set_startRef None (setBusy false s), Some args)
        | Some _ => (s, Some args)
        end
    | StartRejected err =>
        let s := setError (Some err) s in
        let s := setBusy false s in
        (set_startRef None s, Some args)
    end.

(** [stop], as created by the render that saw the cells [r]; [rejected]
    is the error of [invoke('stop_self_play')], if it throws. *)
Definition stop (r : State) (rejected : option string) (s : State) : State * bool :=
  if negb (busy r) then (s, false)
  else
    match rejected with
    | Some err => (setError (Some err) s, true)
    | None => (s, true)
    end.

End UseSelfPlay.

(** ** The error banner: App.tsx *)
Module App.
Import Types.

(** [a || b] on [string | null]. *)
Definition or_string (a b : option string) : option string :=
  if truthy_string a then a else b.

(** [const error = gameError || selfPlay.error] *)
Definition error (g : UseGame.Hook) (sp : UseSelfPlay.State) : option string :=
  or_string (UseGame.error g) (UseSelfPlay.error sp).

Record Banner := {
  message : string;
  retry_button : bool
}.

Definition errorBanner (g : UseGame.Hook) (sp : UseSelfPlay.State) : option Banner :=
  if truthy_string (error g sp) then
    match error g sp with
    | Some text =>
        Some {| message := text;
                retry_button := UseGame.canRetryAi g
                                && negb (truthy (result (UseGame.game g))) |}
    | None => None
    end
  else None.

(** The two hooks whose errors the banner reads. *)
Record Errors := {
  gameHook : UseGame.Hook;
  selfPlay : UseSelfPlay.State
}.

(** The two ways an error is surfaced: a call of [useGame] whose
    [invoke] rejects, and a [self_play_error] event. *)
Inductive Surfaced :=
| GameCallRejected (c : UseGame.Command) (err : string)
| SelfPlayErrorEvent (err : string).

Definition rejecting (err : string) (c : UseGame.Command) (w : unit)
    : UseGame.Outcome * unit :=
  (UseGame.Rejected err, w).

Definition surface (e : Surfaced) (a : Errors) : Errors :=
  match e with
  | GameCallRejected c err =>
      {| gameHook :=
           UseGame.hook
             (snd (UseGame.call unit (rejecting err) true c
                     (UseGame.start_of unit (gameHook a) tt)));
         selfPlay := selfPlay a |}
  | SelfPlayErrorEvent err =>
      {| gameHook := gameHook a;
         selfPlay := UseSelfPlay.on_error err (selfPlay a) |}
  end.

Definition surface_all (es : list Surfaced) (a : Errors) : Errors :=
  fold_left (fun acc e => surface e acc) es a.

Definition surfaced_message (e : Surfaced) : string :=
  match e with
  | GameCallRejected _ err => err
  | SelfPlayErrorEvent err => err
  end.

(** The reading "last-write-wins": the message of the error surfaced
    most recently. *)
Definition last_write (es : list Surfaced) : option string :=
  match rev es with
  | e :: _ => Some (surfaced_message e)
  | [] => None
  end.

Definition visible (a : Errors) : option string :=
  match errorBanner (gameHook a) (selfPlay a) with
  | Some b => Some (message b)
  | None => None
  end.

Definition fresh : Errors :=
  {| gameHook := UseGame.initial; selfPlay := UseSelfPlay.initial |}.

End App.

(** ** Concrete data for the worked runs *)
Module Scenario.
Import Types.

(** Black has just played the centre of an empty 15x15 board against
    the engine; the engine is to move. *)
Definition after_human : GameSnapshot := {|
  boardSize := 15;
  board := repeat None 112 ++ [Some B] ++ repeat None 112;
  ruleSet := standard;
  toMove := W;
  result := None;
  moves := [{| move_x := 7; move_y := 7; move_player := B; move_t := None |}];
  mode := human_vs_ai B;
  canHumanMove := false
|}.

(** The engine has answered next to the centre. *)
Definition after_ai : GameSnapshot := {|
  boardSize := 15;
  board := repeat None 112 ++ [Some B; Some W] ++ repeat None 111;
  ruleSet := standard;
  toMove := B;
  result := None;
  moves := [{| move_x := 7; move_y := 7; move_player := B; move_t := None |};
            {| move_x := 8; move_y := 7; move_player := W; move_t := None |}];
  mode := human_vs_ai B;
  canHumanMove := true
|}.

(** White has won; the finished game is still on the board while the
    next one is being set up. *)
Definition white_won : GameSnapshot := {|
  boardSize := 15;
  board := repeat None 112 ++ [Some B; Some W] ++ repeat None 111;
  ruleSet := standard;
  toMove := B;
  result := Some W_WIN;
  moves := [];
  mode := human_vs_ai W;
  canHumanMove := false
|}.

Definition stale_result : UseGame.Hook := {|
  UseGame.game := white_won;
  UseGame.busy := false;
  UseGame.error := None;
  UseGame.canRetryAi := false
|}.



(** An engine-vs-engine game in progress, as the scheduler sees it. *)
Definition watching : UseAutoPlay.Options := {|
  UseAutoPlay.onStep := 0%nat;
  UseAutoPlay.isGameOver := false;
  UseAutoPlay.isAiVsAi := true
|}.

Definition finished : UseAutoPlay.Options := {|
  UseAutoPlay.onStep := 0%nat;
  UseAutoPlay.isGameOver := true;
  UseAutoPlay.isAiVsAi := true
|}.

(** The same board after the mode was switched to human-vs-engine. *)
Definition mode_left : UseAutoPlay.Options := {|
  UseAutoPlay.onStep := 0%nat;
  UseAutoPlay.isGameOver := false;
  UseAutoPlay.isAiVsAi := false
|}.

(** Auto-play was started at medium speed and its first step has
    settled. *)
Definition playing_medium : UseAutoPlay.State :=
  UseAutoPlay.act UseAutoPlay.StepSettled
    (UseAutoPlay.act (UseAutoPlay.Render watching)
       (UseAutoPlay.act UseAutoPlay.Start (UseAutoPlay.mount watching))).

Definition ten_of_hundred : SelfPlayProgress :=
  {| completed := 10; total := 100; percent := 10 |}.

Definition none_of_hundred : SelfPlayProgress :=
  {| completed := 0; total := 100; percent := 0 |}.

End Scenario.


(** ** A run of the scheduler, and the calls of a trace *)
Module Runs.
Import Types.

(** The actions of a list applied from left to right. *)
Definition run_actions (acts : list UseAutoPlay.Action) (s : UseAutoPlay.State)
    : UseAutoPlay.State :=
  fold_left (fun acc a => UseAutoPlay.act a acc) acts s.

Definition is_settle (a : UseAutoPlay.Action) : bool :=
  match a with
  | UseAutoPlay.StepSettled => true
  | _ => false
  end.

Definition is_render (a : UseAutoPlay.Action) : bool :=
  match a with
  | UseAutoPlay.Render _ => true
  | _ => false
  end.

(** An interval runs only while the scheduler plays a governed game,
    at the delay of the speed last rendered, on a [step] that saw the
    game not over. *)
Definition timer_matches (s : UseAutoPlay.State) : Prop :=
  forall t, In t (UseAutoPlay.intervals s) ->
    UseAutoPlay.isPlaying s = true
    /\ UseAutoPlay.seen_isPlaying (UseAutoPlay.rendered s) = true
    /\ UseAutoPlay.governing (UseAutoPlay.options (UseAutoPlay.rendered s)) = true
    /\ UseAutoPlay.delay t
       = UseAutoPlay.SPEED_INTERVALS (UseAutoPlay.seen_speed (UseAutoPlay.rendered s))
    /\ UseAutoPlay.tick_isGameOver t = false.

(** The commands that reached [call], in order. *)
Fixpoint commands_of (t : list UseGame.Event) : list UseGame.Command :=
  match t with
  | UseGame.EvCall c _ :: rest => c :: commands_of rest
  | _ :: rest => commands_of rest
  | [] => []
  end.

(** How often the rating refresh was awaited. *)
Fixpoint refreshes_of (t : list UseGame.Event) : nat :=
  match t with
  | UseGame.EvRatingsChanged :: rest => S (refreshes_of rest)
  | _ :: rest => refreshes_of rest
  | [] => O
  end.

End Runs.

(** ** hooks/useNavigation.ts *)
Module UseNavigation.

Inductive AppMode := welcome | play | settings.
Inductive SettingsPage := home | profile | ai | data | users.

Record State := {
  mode : AppMode;
  settingsPage : SettingsPage
}.

Definition initial : State := {| mode := welcome; settingsPage := home |}.

Definition setMode (m : AppMode) (s : State) : State :=
  {| mode := m; settingsPage := settingsPage s |}.

Definition setSettingsPage (p : SettingsPage) (s : State) : State :=
  {| mode := mode s; settingsPage := p |}.

Definition goToWelcome (s : State) : State := setMode welcome s.

Definition goToPlay (s : State) : State := setMode play s.

Definition goToSettings (s : State) : State :=
  setSettingsPage home (setMode settings s).

Definition goToSettingsPage (page : SettingsPage) (s : State) : State :=
  setSettingsPage page (setMode settings s).

Definition is_settings (m : AppMode) : bool :=
  match m with settings => true | _ => false end.

Definition is_play (m : AppMode) : bool :=
  match m with play => true | _ => false end.

Definition is_home (p : SettingsPage) : bool :=
  match p with home => true | _ => false end.

(** [goBack], as created by the render that saw [r]. *)
Definition goBack (r : State) (s : State) : State :=
  if is_settings (mode r) && negb (is_home (settingsPage r)) then
    setSettingsPage home s
  else if is_settings (mode r) then setMode welcome s
  else if is_play (mode r) then setMode welcome s
  else s.

Inductive Intent :=
| GoToWelcome
| GoToPlay
| GoToSettings
| GoToSettingsPage (page : SettingsPage)
| GoBack.

(** An intent issued from the UI of the latest render. *)
Definition navigate (i : Intent) (s : State) : State :=
  match i with
  | GoToWelcome => goToWelcome s
  | GoToPlay => goToPlay s
  | GoToSettings => goToSettings s
  | GoToSettingsPage page => goToSettingsPage page s
  | GoBack => goBack s s
  end.

End UseNavigation.

(** ** Profiles, and the selection of LLM participants in useSelfPlay *)
Module Selection.
Import Types.

Inductive ProfileKind := heuristic | llm.

Record AiConfig := {
  depth : Z;
  maxCandidates : Z;
  randomness : Q;
  maxNodes : Z;
  defenseWeight : Q
}.

Record LlmConfig := {
  baseUrl : string;
  model : string;
  temperature : Q;
  topP : Q;
  maxTokens : Z;
  timeoutMs : Z;
  candidateLimit : Z;
  apiKeySet : bool
}.

Record ProfileRating := {
  id : string;
  name : string;
  rating : Q;
  games : Z;
  wins : Z;
  draws : Z;
  losses : Z;
  kind : ProfileKind;
  config : option AiConfig;
  llm_config : option LlmConfig
}.

Definition is_llm (k : ProfileKind) : bool :=
  match k with llm => true | heuristic => false end.

(** [p.kind === 'llm' && p.llm?.apiKeySet], as a condition. *)
Definition selectable (p : ProfileRating) : bool :=
  is_llm (kind p)
  && match llm_config p with
     | Some c => apiKeySet c
     | None => false
     end.

(** [prev.includes(id)] *)
Definition includes (l : list string) (x : string) : bool :=
  existsb (String.eqb x) l.

Definition setIncludeLlm (b : bool) (s : UseSelfPlay.State) : UseSelfPlay.State :=
  {| UseSelfPlay.busy := UseSelfPlay.busy s;
     UseSelfPlay.progress := UseSelfPlay.progress s;
     UseSelfPlay.report := UseSelfPlay.report s;
     UseSelfPlay.eta := UseSelfPlay.eta s;
     UseSelfPlay.error := UseSelfPlay.error s;
     UseSelfPlay.gamesPerPair := UseSelfPlay.gamesPerPair s;
     UseSelfPlay.parallelism := UseSelfPlay.parallelism s;
     UseSelfPlay.minLevel := UseSelfPlay.minLevel s;
     UseSelfPlay.maxLevel := UseSelfPlay.maxLevel s;
     UseSelfPlay.includeLlm := b;
     UseSelfPlay.llmIds := UseSelfPlay.llmIds s;
     UseSelfPlay.startRef := UseSelfPlay.startRef s |}.

Definition setLlmIds (l : list string) (s : UseSelfPlay.State) : UseSelfPlay.State :=
  {| UseSelfPlay.busy := UseSelfPlay.busy s;
     UseSelfPlay.progress := UseSelfPlay.progress s;
     UseSelfPlay.report := UseSelfPlay.report s;
     UseSelfPlay.eta := UseSelfPlay.eta s;
     UseSelfPlay.error := UseSelfPlay.error s;
     UseSelfPlay.gamesPerPair := UseSelfPlay.gamesPerPair s;
     UseSelfPlay.parallelism := UseSelfPlay.parallelism s;
     UseSelfPlay.minLevel := UseSelfPlay.minLevel s;
     UseSelfPlay.maxLevel := UseSelfPlay.maxLevel s;
     UseSelfPlay.includeLlm := UseSelfPlay.includeLlm s;
     UseSelfPlay.llmIds := l;
     UseSelfPlay.startRef := UseSelfPlay.startRef s |}.

Definition setMinLevel (v : Z) (s : UseSelfPlay.State) : UseSelfPlay.State :=
  {| UseSelfPlay.busy := UseSelfPlay.busy s;
     UseSelfPlay.progress := UseSelfPlay.progress s;
     UseSelfPlay.report := UseSelfPlay.report s;
     UseSelfPlay.eta := UseSelfPlay.eta s;
     UseSelfPlay.error := UseSelfPlay.error s;
     UseSelfPlay.gamesPerPair := UseSelfPlay.gamesPerPair s;
     UseSelfPlay.parallelism := UseSelfPlay.parallelism s;
     UseSelfPlay.minLevel := v;
     UseSelfPlay.maxLevel := UseSelfPlay.maxLevel s;
     UseSelfPlay.includeLlm := UseSelfPlay.includeLlm s;
     UseSelfPlay.llmIds := UseSelfPlay.llmIds s;
     UseSelfPlay.startRef := UseSelfPlay.startRef s |}.

Definition setMaxLevel (v : Z) (s : UseSelfPlay.State) : UseSelfPlay.State :=
  {| UseSelfPlay.busy := UseSelfPlay.busy s;
     UseSelfPlay.progress := UseSelfPlay.progress s;
     UseSelfPlay.report := UseSelfPlay.report s;
     UseSelfPlay.eta := UseSelfPlay.eta s;
     UseSelfPlay.error := UseSelfPlay.error s;
     UseSelfPlay.gamesPerPair := UseSelfPlay.gamesPerPair s;
     UseSelfPlay.parallelism := UseSelfPlay.parallelism s;
     UseSelfPlay.minLevel := UseSelfPlay.minLevel s;
     UseSelfPlay.maxLevel := v;
     UseSelfPlay.includeLlm := UseSelfPlay.includeLlm s;
     UseSelfPlay.llmIds := UseSelfPlay.llmIds s;
     UseSelfPlay.startRef := UseSelfPlay.startRef s |}.

(** [toggleIncludeLlm(checked, profiles)] *)
Definition toggleIncludeLlm (checked : bool) (profiles : list ProfileRating)
    (s : UseSelfPlay.State) : UseSelfPlay.State :=
  let s := setIncludeLlm checked s in
  if checked then
    let defaults := map id (filter selectable profiles) in
    setLlmIds defaults s
  else setLlmIds [] s.

(** The updater [toggleLlmId] passes to [setLlmIds]. *)
Definition toggled (x : string) (checked : bool) (prev : list string) : list string :=
  if checked then
    if includes prev x then prev else prev ++ [x]
  else filter (fun item => negb (String.eqb item x)) prev.

(** [toggleLlmId(id, checked)] *)
Definition toggleLlmId (x : string) (checked : bool)
    (s : UseSelfPlay.State) : UseSelfPlay.State :=
  setLlmIds (toggled x checked (UseSelfPlay.llmIds s)) s.

(** The level inputs of SelfPlayPanel, for an integer entered as [v];
    [r] is the render whose props the handlers read. *)
Definition onMinLevelInput (r : UseSelfPlay.State) (v : Z)
    (s : UseSelfPlay.State) : UseSelfPlay.State :=
  setMinLevel (Z.max 1 (Z.min v (UseSelfPlay.maxLevel r))) s.

Definition onMaxLevelInput (r : UseSelfPlay.State) (v : Z)
    (s : UseSelfPlay.State) : UseSelfPlay.State :=
  setMaxLevel (Z.max (UseSelfPlay.minLevel r) (Z.min v 12)) s.

Inductive LevelInput :=
| MinLevelInput (v : Z)
| MaxLevelInput (v : Z).

Definition level_input (i : LevelInput) (s : UseSelfPlay.State) : UseSelfPlay.State :=
  match i with
  | MinLevelInput v => onMinLevelInput s v s
  | MaxLevelInput v => onMaxLevelInput s v s
  end.

(** What moves the tracker while a job runs, short of its end. *)
Inductive Midrun :=
| ProgressEvent (now1 now2 : Z) (payload : SelfPlayProgress)
| StopPressed (rejected : option string)
| StartPressed (now : Z) (outcome : UseSelfPlay.StartOutcome).

Definition midrun (e : Midrun) (s : UseSelfPlay.State) : UseSelfPlay.State :=
  match e with
  | ProgressEvent now1 now2 payload => UseSelfPlay.on_progress now1 now2 payload s
  | StopPressed rejected => fst (UseSelfPlay.stop s rejected s)
  | StartPressed now outcome => fst (UseSelfPlay.start s now (fun _ => outcome) s)
  end.

Definition run_midrun (es : list Midrun) (s : UseSelfPlay.State) : UseSelfPlay.State :=
  fold_left (fun acc e => midrun e acc) es s.

Definition run_level_inputs (inputs : list LevelInput) (s : UseSelfPlay.State)
    : UseSelfPlay.State :=
  fold_left (fun acc i => level_input i acc) inputs s.

Definition is_progress (e : Midrun) : bool :=
  match e with
  | ProgressEvent _ _ _ => true
  | _ => false
  end.

End Selection.

(** ** components/Board: where a stone is drawn, and the memo comparator *)
Module Board.
Import Types.

(** [index % boardSize] and [Math.floor(index / boardSize)] for an
    array index. *)
Definition stone_x (boardSize index : Z) : Z := Z.rem index boardSize.
Definition stone_y (boardSize index : Z) : Z := index / boardSize.

(** An array object: its identity on the heap and its elements. *)
Record BoardArray := {
  array_ref : nat;
  cells : list (option Player)
}.

Record BoardProps := {
  boardSize : Z;
  board : BoardArray;
  lastMove : option Move;
  onCellClick : nat
}.

Definition player_eqb (a b : Player) : bool :=
  match a, b with
  | B, B | W, W => true
  | _, _ => false
  end.

(** [===] on an array element: ['B'], ['W'], [null], or [undefined]
    past the end. *)
Definition element_eqb (a b : option (option Player)) : bool :=
  match a, b with
  | Some (Some p), Some (Some q) => player_eqb p q
  | Some None, Some None => true
  | None, None => true
  | _, _ => false
  end.

(** [===] on [lastMove?.x]: a number or [undefined]. *)
Definition coord_eqb (a b : option Z) : bool :=
  match a, b with
  | Some x, Some y => x =? y
  | None, None => true
  | _, _ => false
  end.

(** The comparator passed to [React.memo]: [true] skips the
    re-render. *)
Definition propsAreEqual (prev next : BoardProps) : bool :=
  if negb (Nat.eqb (onCellClick prev) (onCellClick next)) then false
  else if negb (boardSize prev =? boardSize next) then false
  else if negb (coord_eqb (option_map move_x (lastMove prev))
                          (option_map move_x (lastMove next)))
          || negb (coord_eqb (option_map move_y (lastMove prev))
                             (option_map move_y (lastMove next)))
  then false
  else if Nat.eqb (array_ref (board prev)) (array_ref (board next)) then true
  else if negb (Nat.eqb (List.length (cells (board prev)))
                        (List.length (cells (board next)))) then false
  else
    forallb (fun i => element_eqb (nth_error (cells (board prev)) i)
                                  (nth_error (cells (board next)) i))
            (seq 0 (List.length (cells (board prev)))).

End Board.

(** ** components/Play/NewGameDialog: the default engine ids *)
Module NewGameDialog.
Import Selection.

(** [profiles.some((p) => p.id === x)] *)
Definition some_id (profiles : list ProfileRating) (x : string) : bool :=
  existsb (fun p => String.eqb (id p) x) profiles.

(** [profiles[i].id], read only where the index is in range. *)
Definition id_at (profiles : list ProfileRating) (i : nat) (otherwise : string) : string :=
  match nth_error profiles i with
  | Some p => id p
  | None => otherwise
  end.

(** The effect "Initialize AI IDs when profiles change": the pair of
    cells [blackAiId], [whiteAiId] after it ran. *)
Definition init_ai_ids (profiles : list ProfileRating) (ids : string * string)
    : string * string :=
  let (blackAiId, whiteAiId) := ids in
  if (0 <? List.length profiles)%nat then
    let black :=
      if String.eqb blackAiId "" || negb (some_id profiles blackAiId)
      then id_at profiles 0 blackAiId
      else blackAiId in
    let white :=
      if String.eqb whiteAiId "" || negb (some_id profiles whiteAiId)
      then id_at profiles (Nat.min 1 (List.length profiles - 1)) whiteAiId
      else whiteAiId in
    (black, white)
  else (blackAiId, whiteAiId).

End NewGameDialog.

(** ** App.tsx: file names and the new-game handler *)
Module AppHandlers.
Import Types.

(** [s.endsWith(suffix)] *)
Definition endsWith (s suffix : string) : bool :=
  let n := String.length s in
  let m := String.length suffix in
  (m <=? n)%nat && String.eqb (substring (n - m) m s) suffix.

Definition joinUserPath (dir filename : string) : string :=
  if endsWith dir "/" || endsWith dir "\" then dir ++ filename
  else dir ++ "/" ++ filename.

(** The fields [formatTimestamp] reads off a [Date]; [month] counts
    from zero. *)
Record DateFields := {
  fullYear : Z;
  month : Z;
  date : Z;
  hours : Z;
  minutes : Z;
  seconds : Z
}.

Definition pad (value : Z) : string :=
  UseSelfPlay.padStart2 (UseSelfPlay.String_of value).

Definition formatTimestamp (d : DateFields) : string :=
  UseSelfPlay.String_of (fullYear d) ++ pad (month d + 1) ++ pad (date d)
  ++ "-" ++ pad (hours d) ++ pad (minutes d) ++ pad (seconds d).


Section Gateway.
Variable World : Type.
Variable invoke : UseGame.Command -> World -> UseGame.Outcome * World.
Variable isTauri : bool.



End Gateway.

End AppHandlers.

(** ** Concrete data for the further worked runs *)
Module Samples.
Import Types Selection.

Definition level_three : ProfileRating := {|
  id := "L03"; name := "Level 3"; rating := 1200;
  games := 0; wins := 0; draws := 0; losses := 0;
  kind := heuristic; config := None; llm_config := None
|}.

Definition keyed_llm : ProfileRating := {|
  id := "llm-a"; name := "Model A"; rating := 1500;
  games := 0; wins := 0; draws := 0; losses := 0;
  kind := llm; config := None;
  llm_config := Some {| baseUrl := ""; model := "gpt-4o-mini"; temperature := 0.4;
                        topP := 1; maxTokens := 128; timeoutMs := 20000;
                        candidateLimit := 12; apiKeySet := true |}
|}.

Definition keyless_llm : ProfileRating := {|
  id := "llm-b"; name := "Model B"; rating := 1500;
  games := 0; wins := 0; draws := 0; losses := 0;
  kind := llm; config := None;
  llm_config := Some {| baseUrl := ""; model := "gpt-4o-mini"; temperature := 0.4;
                        topP := 1; maxTokens := 128; timeoutMs := 20000;
                        candidateLimit := 12; apiKeySet := false |}
|}.

Definition ladder : list ProfileRating := [level_three; keyed_llm; keyless_llm].

(** A tracker whose job was started at clock reading 1000. *)
Definition running : UseSelfPlay.State :=
  fst (UseSelfPlay.start UseSelfPlay.initial 1000
         (fun _ => UseSelfPlay.StartResolved (Some true)) UseSelfPlay.initial).

(** The game hook showing the position after the human's move. *)
Definition human_moved : UseGame.Hook := {|
  UseGame.game := Scenario.after_human;
  UseGame.busy := false;
  UseGame.error := None;
  UseGame.canRetryAi := false
|}.

(** Two renders of the board with equal contents in distinct arrays. *)
Definition board_before : Board.BoardProps := {|
  Board.boardSize := 15;
  Board.board := {| Board.array_ref := 1%nat;
                    Board.cells := board Scenario.after_human |};
  Board.lastMove := Some {| move_x := 7; move_y := 7; move_player := B;
                            move_t := None |};
  Board.onCellClick := 4%nat
|}.

Definition board_again : Board.BoardProps := {|
  Board.boardSize := 15;
  Board.board := {| Board.array_ref := 2%nat;
                    Board.cells := board Scenario.after_human |};
  Board.lastMove := Some {| move_x := 7; move_y := 7; move_player := B;
                            move_t := Some 12 |};
  Board.onCellClick := 4%nat
|}.

End Samples.
(** * Properties of the move pipeline *)
Section MovePipeline.
Import Types UseGame.

Variable World : Type.
Variable invoke : Command -> World -> Outcome * World.
Variable isTauri : bool.

Lemma makeMove_blocked_noop (h : Hook) (x y : Z) onRatingsChanged autoTriggerAi (s : Sys World) :
  makeMove_blocked h x y = true ->
  makeMove World invoke isTauri h x y onRatingsChanged autoTriggerAi s = (tt, s).
Proof.
  unfold makeMove_blocked, makeMove.
  destruct (busy h), (truthy (result (game h))), (canHumanMove (game h)),
    (truthy (board_at (game h) (y * boardSize (game h) + x)));
    simpl; intros E; try discriminate E; reflexivity.
Qed.

(** The run of [makeMove] from a render [h], in the four forms it can
    take once the guards are passed. *)
Lemma makeMove_trace_shape (h : Hook) (w : World) (x y : Z) onRatingsChanged autoTriggerAi :
  makeMove_blocked h x y = false ->
  let r := run_makeMove World invoke isTauri h w x y onRatingsChanged autoTriggerAi in
  (exists msg,
      trace r = [EvCall (make_move x y) (Failed msg)]
      /\ game (hook r) = game h /\ canRetryAi (hook r) = false
      /\ error (hook r) = Some msg)
  \/ (exists s1 tl,
      trace r = EvCall (make_move x y) (Returned s1) :: EvStoneSound :: tl
      /\ (tl = [] \/ tl = [EvRatingsChanged])
      /\ reply_owed s1 autoTriggerAi = false
      /\ game (hook r) = s1)
  \/ (exists s1 msg,
      trace r = [EvCall (make_move x y) (Returned s1); EvStoneSound;
                 EvCall ai_move (Failed msg)]
      /\ reply_owed s1 autoTriggerAi = true
      /\ game (hook r) = s1 /\ canRetryAi (hook r) = true
      /\ error (hook r) = Some msg)
  \/ (exists s1 s2 tl,
      trace r = EvCall (make_move x y) (Returned s1) :: EvStoneSound
                :: EvCall ai_move (Returned s2) :: EvStoneSound :: tl
      /\ (tl = [] \/ tl = [EvRatingsChanged])
      /\ reply_owed s1 autoTriggerAi = true
      /\ game (hook r) = s2).
Proof.
  unfold makeMove_blocked. intros G.
  apply orb_false_elim in G as [G G4].
  apply orb_false_elim in G as [G G3].
  unfold run_makeMove, makeMove.
  rewrite G, G3, G4.
  unfold call, bind, await_invoke, playStoneSound, setBusy, setGame,
    setError, setCanRetryAi, emit, modify_hook, ret, start_of.
  destruct isTauri; cbn.
  - destruct (invoke (make_move x y) w) as [[s1|e] w1]; cbn.
    + destruct (reply_owed s1 autoTriggerAi) eqn:Owed; cbn.
      * destruct (invoke ai_move w1) as [[s2|e2] w2]; cbn.
        -- right; right; right. exists s1, s2.
           destruct (truthy (result s2)); cbn.
           ++ destruct onRatingsChanged; cbn; eexists; (split; [reflexivity|]); auto.
           ++ eexists; (split; [reflexivity|]); auto.
        -- right; right; left. exists s1, e2. repeat split; auto.
      * right; left. exists s1.
        destruct (truthy (result s1)); cbn.
        -- destruct onRatingsChanged; cbn; eexists; (split; [reflexivity|]); auto.
        -- eexists; (split; [reflexivity|]); auto.
    + left. exists e. repeat split; auto.
  - left. eexists. repeat split; auto.
Qed.

Lemma makeMove_blocked_trace (h : Hook) (w : World) (x y : Z) onRatingsChanged autoTriggerAi :
  makeMove_blocked h x y = true ->
  trace (run_makeMove World invoke isTauri h w x y onRatingsChanged autoTriggerAi) = [].
Proof.
  intros G. unfold run_makeMove.
  rewrite (makeMove_blocked_noop h x y onRatingsChanged autoTriggerAi _ G). reflexivity.
Qed.

Ltac read_trace :=
  repeat match goal with
  | H : In _ (_ :: _) |- _ => destruct H as [H | H]
  | H : In _ [] |- _ => destruct H
  | H : _ \/ _ |- _ => destruct H as [H | H]
  | H : _ /\ _ |- _ => destruct H
  | H : exists _, _ |- _ => destruct H
  | H : EvCall _ _ = EvCall _ _ |- _ => inversion H; clear H; subst
  | H : EvStoneSound = EvCall _ _ |- _ => discriminate H
  | H : EvRatingsChanged = EvCall _ _ |- _ => discriminate H
  | H : ?t = _ :: _ |- _ => is_var t; subst t
  | H : ?t = [] |- _ => is_var t; subst t
  end.

Ltac by_shape h w x y cb flag :=
  destruct (makeMove_blocked h x y) eqn:Guards;
  [ rewrite (makeMove_blocked_trace h w x y cb flag Guards) in *
  | pose proof (makeMove_trace_shape h w x y cb flag Guards) as Shape;
    cbv zeta in Shape;
    destruct Shape as [(msg' & T & Shape) | [(s1' & tl & T & Shape)
      | [(s1' & msg' & T & Shape) | (s1' & s2' & tl & T & Shape)]]];
    rewrite T in * ].

(** C1. When the [make_move] call of a [makeMove] invocation returns a
    snapshot and the automatic [ai_move] call that follows fails, the
    hook's snapshot is the one [make_move] returned (the human move is
    kept) and the stored error is flagged retryable. *)
Theorem makeMove_reply_failure_keeps_human_move
    (h : Hook) (w : World) (x y : Z) onRatingsChanged autoTriggerAi (s1 : GameSnapshot) (msg : string) :
  let r := run_makeMove World invoke isTauri h w x y onRatingsChanged autoTriggerAi in
  In (EvCall (make_move x y) (Returned s1)) (trace r) ->
  In (EvCall ai_move (Failed msg)) (trace r) ->
  game (hook r) = s1 /\ canRetryAi (hook r) = true /\ error (hook r) = Some msg.
Proof.
  intros r Hmove Hreply. subst r.
  by_shape h w x y onRatingsChanged autoTriggerAi; read_trace; auto.
Qed.

(** C2. When the [make_move] call of a [makeMove] invocation fails, the
    hook's snapshot is the one the invocation started from and the
    stored error is flagged non-retryable. *)
Theorem makeMove_move_failure_leaves_snapshot
    (h : Hook) (w : World) (x y : Z) onRatingsChanged autoTriggerAi (msg : string) :
  let r := run_makeMove World invoke isTauri h w x y onRatingsChanged autoTriggerAi in
  In (EvCall (make_move x y) (Failed msg)) (trace r) ->
  game (hook r) = game h /\ canRetryAi (hook r) = false /\ error (hook r) = Some msg.
Proof.
  intros r Hmove. subst r.
  by_shape h w x y onRatingsChanged autoTriggerAi; read_trace; auto.
Qed.


(** C4, as the code has it.  When the [make_move] call of a [makeMove]
    invocation returns a snapshot, the automatic [ai_move] call is issued
    if and only if the [autoTriggerAi] argument is true, the snapshot has
    no result, its mode is human-vs-engine and its [canHumanMove] flag is
    false. *)
Theorem makeMove_reply_issued_iff
    (h : Hook) (w : World) (x y : Z) onRatingsChanged autoTriggerAi (s1 : GameSnapshot) :
  let r := run_makeMove World invoke isTauri h w x y onRatingsChanged autoTriggerAi in
  In (EvCall (make_move x y) (Returned s1)) (trace r) ->
  ((exists res, In (EvCall ai_move res) (trace r))
   <-> autoTriggerAi = true /\ result s1 = None
       /\ (exists c, mode s1 = human_vs_ai c) /\ canHumanMove s1 = false).
Proof.
  intros r Hmove. subst r.
  assert (Owed : reply_owed s1 autoTriggerAi = true <->
                 autoTriggerAi = true /\ result s1 = None
                 /\ (exists c, mode s1 = human_vs_ai c) /\ canHumanMove s1 = false).
  { unfold reply_owed. destruct autoTriggerAi, (result s1), (mode s1), (canHumanMove s1);
      cbn; split; intros E; try discriminate E; try reflexivity;
      try (repeat split; eauto; fail);
      destruct E as (E1 & E2 & (c & E3) & E4); discriminate. }
  by_shape h w x y onRatingsChanged autoTriggerAi; read_trace; rewrite <- Owed; split;
    try (intros [res Hin]; read_trace; congruence);
    try congruence; intros _;
    try (eexists; right; right; left; reflexivity); auto.
Qed.


(** What [force] does bypass: with no call in flight a forced
    [requestAiMove] issues [ai_move] even on a snapshot with a result,
    where an unforced one returns at once. *)
Lemma requestAiMove_force_bypasses_result
    (h : Hook) (w : World) onRatingsChanged :
  busy h = false ->
  result (game h) <> None ->
  (exists res tl,
      trace (run_requestAiMove World invoke isTauri h w onRatingsChanged true)
      = EvCall ai_move res :: tl)
  /\ requestAiMove World invoke isTauri h onRatingsChanged false (start_of World h w)
     = (tt, start_of World h w).
Proof.
  intros Idle Over. destruct (result (game h)) eqn:R; [|contradiction].
  unfold run_requestAiMove, requestAiMove. rewrite Idle, R. cbn. split.
  - unfold call, bind, await_invoke, playStoneSound, setBusy, setGame,
      setError, setCanRetryAi, emit, modify_hook, ret, start_of.
    destruct isTauri; cbn.
    + destruct (invoke ai_move w) as [[s1|e] w1]; cbn.
      * destruct (truthy (result s1)); [destruct onRatingsChanged|];
          cbn; eauto.
      * eauto.
    + eauto.
  - reflexivity.
Qed.

End MovePipeline.

(** Worked runs of the move pipeline against a scripted engine. *)
Section MovePipelineRuns.
Import Types UseGame Scenario.

Lemma makeMove_reply_failure_keeps_human_move_run :
  let r := run_makeMove (list Outcome) scripted true initial
             [Resolved after_human; Rejected "engine crashed"] 7 7 None true in
  game (hook r) = after_human /\ canRetryAi (hook r) = true
  /\ error (hook r) = Some "engine crashed".
Proof.
  apply (makeMove_reply_failure_keeps_human_move (list Outcome) scripted true
           initial [Resolved after_human; Rejected "engine crashed"] 7 7 None true
           after_human "engine crashed").
  - vm_compute. left. reflexivity.
  - vm_compute. right. right. left. reflexivity.
Defined.

Lemma makeMove_move_failure_leaves_snapshot_run :
  let r := run_makeMove (list Outcome) scripted true initial
             [Rejected "cell occupied"] 7 7 None true in
  game (hook r) = game initial /\ canRetryAi (hook r) = false
  /\ error (hook r) = Some "cell occupied".
Proof.
  apply (makeMove_move_failure_leaves_snapshot (list Outcome) scripted true
           initial [Rejected "cell occupied"] 7 7 None true "cell occupied").
  vm_compute. left. reflexivity.
Defined.



Lemma makeMove_reply_issued_iff_run :
  let r := run_makeMove (list Outcome) scripted true initial
             [Resolved after_human; Resolved after_ai] 7 7 None true in
  (exists res, In (EvCall ai_move res) (trace r))
  <-> true = true /\ result after_human = None
      /\ (exists c, mode after_human = human_vs_ai c)
      /\ canHumanMove after_human = false.
Proof.
  apply (makeMove_reply_issued_iff (list Outcome) scripted true initial
           [Resolved after_human; Resolved after_ai] 7 7 None true after_human).
  vm_compute. left. reflexivity.
Defined.

(** With [autoTriggerAi] false the three conditions on the new snapshot
    hold and yet no [ai_move] call is issued. *)
Lemma makeMove_reply_withheld_without_autoTriggerAi :
  let r := run_makeMove (list Outcome) scripted true initial
             [Resolved after_human; Resolved after_ai] 7 7 None false in
  In (EvCall (make_move 7 7) (Returned after_human)) (trace r)
  /\ (result after_human = None
      /\ (exists c, mode after_human = human_vs_ai c)
      /\ canHumanMove after_human = false)
  /\ ~ (exists res, In (EvCall ai_move res) (trace r)).
Proof.
  intros r. split; [vm_compute; left; reflexivity|].
  split; [repeat split; exists B; reflexivity|].
  intros [res Hin]. vm_compute in Hin.
  destruct Hin as [E | [E | []]]; discriminate E.
Qed.



(** The first engine move of a new game, requested while the previous
    game's result is still in the captured snapshot. *)
Example requestAiMove_forced_on_stale_result :
  let r := run_requestAiMove (list Outcome) scripted true stale_result
             [Resolved after_ai] None true in
  trace r = [EvCall ai_move (Returned after_ai); EvStoneSound]
  /\ game (hook r) = after_ai /\ busy (hook r) = false.
Proof. vm_compute. repeat split. Qed.

End MovePipelineRuns.

(** * Properties of the auto-play scheduler *)
Section AutoPlay.
Import UseAutoPlay.

Lemma clearAutoPlay_owned (s : State) :
  timer_owned s ->
  intervalRef (clearAutoPlay s) = None /\ intervals (clearAutoPlay s) = [].
Proof.
  unfold timer_owned, clearAutoPlay.
  destruct (intervalRef s) as [id|] eqn:Ref.
  - intros (_ & _ & t & Tab & Id). cbn. rewrite Tab. cbn.
    rewrite Id, Nat.eqb_refl. auto.
  - intros Tab. rewrite Ref. auto.
Qed.

Lemma clearAutoPlay_frame (s : State) :
  isPlaying (clearAutoPlay s) = isPlaying s
  /\ speed (clearAutoPlay s) = speed s
  /\ steppingRef (clearAutoPlay s) = steppingRef s
  /\ rendered (clearAutoPlay s) = rendered s
  /\ playing_cleanup (clearAutoPlay s) = playing_cleanup s
  /\ next_interval (clearAutoPlay s) = next_interval s
  /\ steps (clearAutoPlay s) = steps s.
Proof.
  unfold clearAutoPlay. destruct (intervalRef s); cbn; repeat split.
Qed.

(** [clearAutoPlay] on a state that owns its timer, as one record. *)
Lemma clearAutoPlay_eq (s : State) :
  timer_owned s ->
  clearAutoPlay s =
  {| isPlaying := isPlaying s; speed := speed s; intervalRef := None;
     steppingRef := steppingRef s; rendered := rendered s;
     playing_cleanup := playing_cleanup s; intervals := [];
     next_interval := next_interval s; steps := steps s |}.
Proof.
  intros Own. destruct (clearAutoPlay_owned s Own) as [R T].
  destruct (clearAutoPlay_frame s) as (F1 & F2 & F3 & F4 & F5 & F6 & F7).
  destruct (clearAutoPlay s); cbn in *. congruence.
Qed.

Lemma governing_false (o : Options) :
  governing o = false <-> isGameOver o = true \/ isAiVsAi o = false.
Proof.
  unfold governing. destruct (isAiVsAi o), (isGameOver o); cbn; intuition congruence.
Qed.

Lemma invariant_mount (o : Options) : invariant (mount o).
Proof.
  destruct o as [f over ai]; destruct over, ai; lazy; auto.
Qed.

Lemma speed_eqb_eq (a b : AutoPlaySpeed) : speed_eqb a b = true <-> a = b.
Proof. destruct a, b; cbn; split; congruence. Qed.

Ltac expose_state s :=
  destruct s as [ip sp ir st [[f0 over0 ai0] ip0 sp0] pc ivs nx stp].

Ltac expose_timer Own cleanup :=
  unfold timer_owned in Own; cbn in Own;
  match type of Own with
  | match ?ir with _ => _ end =>
      destruct ir as [id|];
      [ destruct Own as (-> & Lt & [[id0 d0 g0] [-> Id]]); cbn in Id; subst id0
      | subst; destruct cleanup ]
  end.

Ltac evaluate :=
  lazy -[Nat.eqb Peano.lt]; rewrite ?Nat.eqb_refl; lazy -[Nat.eqb Peano.lt].

Ltac settle :=
  repeat match goal with
  | |- _ /\ _ => split
  | |- _ -> _ => intro
  | H : _ /\ _ |- _ => destruct H
  | H : ?a = ?a -> _ |- _ => specialize (H eq_refl)
  | H : true = false |- _ => discriminate H
  | H : false = true |- _ => discriminate H
  | H : Some _ = None |- _ => discriminate H
  | |- ?a = ?a => reflexivity
  | |- exists t, [?u] = [t] /\ _ => exists u; split; reflexivity
  | |- (_ < _)%nat => lia
  end.

(** The effect phase keeps the invariant, provided an effect that is
    skipped was skipped in a state the invariant already covers. *)
Lemma commit_invariant (run_playing run_mode : bool) (r : Rendered) (s : State) :
  timer_owned s ->
  seen_isPlaying r = isPlaying s ->
  (run_playing = false -> governing (options r) = false ->
   isPlaying s = false /\ intervalRef s = None) ->
  (run_mode = false -> isAiVsAi (options r) = false -> isPlaying s = false) ->
  invariant (commit run_playing run_mode r s).
Proof.
  intros Own Seen Skipped SkippedMode. expose_state s.
  destruct r as [[f over ai] rip rsp]. cbn in Seen. subst rip.
  cbn in Skipped, SkippedMode.
  expose_timer Own pc;
    destruct run_playing, run_mode, ip, over, ai, st;
    evaluate; lazy in Skipped, SkippedMode; settle.
Qed.

Lemma playing_deps_same_sound (a b : Rendered) :
  playing_deps_same a b = true ->
  seen_isPlaying a = seen_isPlaying b
  /\ isGameOver (options a) = isGameOver (options b)
  /\ isAiVsAi (options a) = isAiVsAi (options b)
  /\ seen_speed a = seen_speed b.
Proof.
  unfold playing_deps_same. intros E.
  repeat (apply andb_prop in E as [E ?]).
  repeat split; try (apply Bool.eqb_prop; assumption).
  apply speed_eqb_eq. assumption.
Qed.

Lemma invariant_render (o : Options) (s : State) :
  invariant s -> invariant (render o s).
Proof.
  intros [Own Stopped]. unfold render. apply commit_invariant; auto.
  - intros Same Cond. cbn in Cond.
    apply negb_false_iff, playing_deps_same_sound in Same.
    cbn in Same. destruct Same as (_ & Over & Ai & _).
    apply Stopped. unfold governing in *. rewrite Over, Ai. exact Cond.
  - intros Same Ai. cbn in Ai.
    apply negb_false_iff, Bool.eqb_prop in Same. cbn in Same.
    apply Stopped. unfold governing. rewrite Same, Ai. reflexivity.
Qed.

Lemma invariant_act (a : Action) (s : State) :
  invariant s -> invariant (act a s).
Proof.
  destruct a as [o| | |sp'| |id'|]; [apply invariant_render| | | | | |];
    intros [Own Stopped]; expose_state s;
    unfold stopped_when_ungoverned, governing in Stopped; cbn in Stopped;
    expose_timer Own pc; destruct ip, over0, ai0, st.
  all: try (evaluate; lazy in Stopped; settle; fail).
  all: unfold act, tick; cbn [intervals find interval_id];
       destruct (Nat.eqb _ id') eqn:E;
       destruct g0; evaluate; lazy in Stopped; settle.
Qed.

Lemma reachable_invariant (s : State) : reachable s -> invariant s.
Proof.
  induction 1 as [o | a s _ IH].
  - apply invariant_mount.
  - apply invariant_act, IH.
Qed.

(** C5. When a render sees the governing condition false (the game is
    over, or the mode is not engine-vs-engine), the scheduler ends up
    stopped with its timer cleared, whatever happened before and without
    any call of [stop]. *)
Theorem render_ungoverned_forces_stopped (s : State) (o : Options) :
  reachable s ->
  isGameOver o = true \/ isAiVsAi o = false ->
  isPlaying (render o s) = false
  /\ intervalRef (render o s) = None
  /\ intervals (render o s) = [].
Proof.
  intros Reach Cond.
  destruct (invariant_render o s (reachable_invariant s Reach)) as [Own Stopped].
  assert (Seen : options (rendered (render o s)) = o) by reflexivity.
  unfold stopped_when_ungoverned in Stopped. rewrite Seen in Stopped.
  destruct (Stopped (proj2 (governing_false o) Cond)) as [Playing Ref].
  unfold timer_owned in Own. rewrite Ref in Own. auto.
Qed.

(** C6, as the code has it.  When the speed is changed while playing
    and the hook re-renders with the governing condition true, the old
    interval is cleared and a new one is installed with the delay of the
    new speed; the re-run effect also performs its immediate step, so
    [onStep] is invoked once more unless a step is still in flight. *)
Theorem speed_change_reestablishes_timer
    (s : State) (new_speed : AutoPlaySpeed) (o : Options) :
  reachable s ->
  isPlaying s = true ->
  seen_speed (rendered s) <> new_speed ->
  isGameOver o = false ->
  isAiVsAi o = true ->
  let s' := render o (setSpeed new_speed s) in
  intervalRef s' = Some (next_interval s)
  /\ intervals s' = [{| interval_id := next_interval s;
                        delay := SPEED_INTERVALS new_speed;
                        tick_isGameOver := false |}]
  /\ (forall t, In t (intervals s) -> ~ In t (intervals s'))
  /\ steps s' = (if steppingRef s then steps s else S (steps s)).
Proof.
  intros Reach Playing Changed Over Ai.
  destruct (reachable_invariant s Reach) as [Own _].
  expose_state s. destruct o as [f over ai].
  cbn in Playing, Changed, Over, Ai. subst ip over ai.
  assert (Diff : speed_eqb sp0 new_speed = false).
  { destruct (speed_eqb sp0 new_speed) eqn:E; [|reflexivity].
    apply speed_eqb_eq in E. contradiction. }
  expose_timer Own pc; destruct st;
    unfold render, setSpeed, playing_deps_same, mode_deps_same;
    cbn [options seen_isPlaying seen_speed isGameOver isAiVsAi onStep
         rendered isPlaying speed];
    rewrite Diff, ?andb_false_r; cbn [andb negb];
    destruct (negb (Bool.eqb ai0 true));
    evaluate; repeat split; auto;
    intros t [E | []] [E' | []]; subst t; inversion E'; lia.
Qed.

End AutoPlay.

(** Worked runs of the scheduler. *)
Section AutoPlayRuns.
Import UseAutoPlay Scenario.

Lemma playing_medium_reachable : reachable playing_medium.
Proof. unfold playing_medium. repeat constructor. Qed.

Lemma render_ungoverned_forces_stopped_run :
  (isPlaying (render finished playing_medium) = false
   /\ intervalRef (render finished playing_medium) = None
   /\ intervals (render finished playing_medium) = [])
  /\ (isPlaying (render mode_left playing_medium) = false
      /\ intervalRef (render mode_left playing_medium) = None
      /\ intervals (render mode_left playing_medium) = []).
Proof.
  split.
  - apply (render_ungoverned_forces_stopped playing_medium finished).
    + exact playing_medium_reachable.
    + left. reflexivity.
  - apply (render_ungoverned_forces_stopped playing_medium mode_left).
    + exact playing_medium_reachable.
    + right. reflexivity.
Defined.

Lemma speed_change_reestablishes_timer_run :
  let s' := render watching (setSpeed fast playing_medium) in
  intervalRef s' = Some (next_interval playing_medium)
  /\ intervals s' = [{| interval_id := next_interval playing_medium;
                        delay := SPEED_INTERVALS fast;
                        tick_isGameOver := false |}]
  /\ (forall t, In t (intervals playing_medium) -> ~ In t (intervals s'))
  /\ steps s' = (if steppingRef playing_medium then steps playing_medium
                 else S (steps playing_medium)).
Proof.
  apply (speed_change_reestablishes_timer playing_medium fast watching).
  - exact playing_medium_reachable.
  - reflexivity.
  - vm_compute. discriminate.
  - reflexivity.
  - reflexivity.
Defined.

(** Changing the speed of a playing scheduler whose last step has
    settled invokes [onStep] once more at once. *)
Lemma speed_change_fires_immediate_step :
  reachable playing_medium
  /\ isPlaying playing_medium = true
  /\ steppingRef playing_medium = false
  /\ speed playing_medium = medium
  /\ intervals (render watching (setSpeed fast playing_medium)) =
       [{| interval_id := 1; delay := 500; tick_isGameOver := false |}]
  /\ steps playing_medium = 1%nat
  /\ steps (render watching (setSpeed fast playing_medium)) = 2%nat.
Proof.
  split; [exact playing_medium_reachable|]. vm_compute. repeat split.
Qed.

End AutoPlayRuns.

(** * Properties of the self-play tracker *)
Section SelfPlay.
Import Types UseSelfPlay.

(** The anchor a progress event computes from: the stored one, or the
    first clock reading when none was stored. *)
Lemma on_progress_anchor (now1 now2 : Z) (payload : SelfPlayProgress) (s : State) :
  startRef (on_progress now1 now2 payload s) =
  Some (if anchor_unset s then now1 else anchor s).
Proof.
  unfold on_progress, anchor_unset, anchor.
  destruct (startRef s) as [t|] eqn:Ref; cbn; rewrite ?Ref; cbn.
  - destruct (t =? 0) eqn:Zero; cbn;
      destruct ((0 <? completed payload) && (0 <? total payload)); cbn;
      rewrite ?Ref; reflexivity.
  - destruct ((0 <? completed payload) && (0 <? total payload)); reflexivity.
Qed.

(** The thresholds of [formatDuration]: seconds under a minute,
    minutes and seconds under an hour, hours and minutes from there. *)
Example formatDuration_thresholds :
  map formatDuration [0; 5; 59.5; 60; 65; 3599; 3600; 3725; 7325.9; -3]%Q
  = ["0s"; "5s"; "59s"; "1m 00s"; "1m 05s"; "59m 59s"; "1h 00m"; "1h 02m";
     "2h 02m"; "0s"].
Proof. vm_compute. reflexivity. Qed.

(** With ten games of a hundred done the estimate is ninety times the
    time per game so far, in binary64. *)
Lemma remainingSeconds_ten_of_hundred (anchorTime now : Z) :
  remainingSeconds anchorTime now Scenario.ten_of_hundred
  = PrimFloat.mul (Number.of_Z 90)
      (PrimFloat.div (elapsedSeconds anchorTime now) (Number.of_Z 10)).
Proof. reflexivity. Qed.

(** The estimate is the rounded one: five games of a hundred after
    23 s leave 95 * (23 / 5) = 436.99999999999994 s, shown as 7m 16s,
    and ten of a hundred after 7 s leave 90 * (7 / 10) =
    62.99999999999999 s, shown as 1m 02s. *)
Example on_progress_rounds_as_binary64 :
  map (fun p => eta (on_progress 1000 (1000 + fst p) (snd p) initial))
    [(23000, {| completed := 5; total := 100; percent := 5 |});
     (7000, Scenario.ten_of_hundred)]
  = [Some "7m 16s"; Some "1m 02s"]
  /\ Number.floor (remainingSeconds 1000 24000
                     {| completed := 5; total := 100; percent := 5 |}) = 436
  /\ Number.floor (remainingSeconds 1000 8000 Scenario.ten_of_hundred) = 62.
Proof. vm_compute. repeat split. Qed.

(** [formatDuration] on numbers: the same layout, [0s] for a duration
    that is not finite, and numerals as [String] prints them. *)
Example formatDuration_number_samples :
  map (fun z => formatDuration_number (Number.of_Z z))
    [0; 5; 60; 65; 3599; 3600; 3725; -3; 10 ^ 400; 60 * 60 * 2 ^ 60;
     3600 * 2 ^ 70]
  = ["0s"; "5s"; "1m 00s"; "1m 05s"; "59m 59s"; "1h 00m"; "1h 02m"; "0s";
     "0s"; "1152921504606847000h 00m"; "1.1805916207174113e+21h 00m"]
  /\ formatDuration_number (PrimFloat.div (Number.of_Z 0) (Number.of_Z 0))
     = "0s"
  /\ formatDuration_number
       (PrimFloat.div (Number.of_Z 119) (Number.of_Z 2)) = "59s".
Proof. vm_compute. repeat split. Qed.

(** On whole seconds up to 2^53 the two readings of [formatDuration]
    print the same. *)
Example formatDuration_number_agrees :
  let samples := [0; 1; 59; 60; 61; 3599; 3600; 86399; 86400; 360000;
                  2 ^ 31; 2 ^ 53 - 1; 2 ^ 53] in
  map (fun z => formatDuration_number (Number.of_Z z)) samples
  = map (fun z => formatDuration (inject_Z z)) samples.
Proof. vm_compute. reflexivity. Qed.

(** C7. A progress event with [completed > 0] and [total > 0] sets the
    ETA to the formatted remaining time
    [(total - completed) * (elapsedSeconds / completed)], computed on
    binary64 numbers as the listener does, the elapsed time being
    measured from the anchor; an event with [completed = 0] or
    [total = 0] sets the ETA to [null]. *)
Theorem on_progress_recomputes_eta
    (now1 now2 : Z) (payload : SelfPlayProgress) (s : State) :
  let s' := on_progress now1 now2 payload s in
  (0 < completed payload /\ 0 < total payload ->
   eta s' = Some (formatDuration_number
                    (remainingSeconds (anchor s') now2 payload)))
  /\ (completed payload = 0 \/ total payload = 0 -> eta s' = None).
Proof.
  cbv zeta. unfold on_progress. split.
  - intros [C T].
    apply Z.ltb_lt in C. apply Z.ltb_lt in T. rewrite C, T.
    unfold remainingSeconds, elapsedSeconds.
    destruct (anchor_unset _); reflexivity.
  - intros [E | E]; rewrite E; cbn; rewrite ?andb_false_r; reflexivity.
Qed.

(** C8, as the code has it.  When [start] is not a no-op and the
    job-start call throws or resolves to [null], [busy] is cleared and
    the anchor is reset to [null]; a thrown error is stored in [error];
    report, progress and ETA stay cleared and the run parameters stay
    as they were. *)
Theorem start_failure_clears_busy_and_anchor
    (r s : State) (now : Z) (engine : StartArgs -> StartOutcome) :
  busy r = false ->
  engine (start_args r) = StartResolved None
  \/ (exists err, engine (start_args r) = StartRejected err) ->
  let s' := fst (start r now engine s) in
  busy s' = false
  /\ startRef s' = None
  /\ error s' = match engine (start_args r) with
                | StartRejected err => Some err
                | StartResolved _ => None
                end
  /\ (report s' = None /\ progress s' = None /\ eta s' = None)
  /\ (gamesPerPair s' = gamesPerPair s /\ parallelism s' = parallelism s
      /\ minLevel s' = minLevel s /\ maxLevel s' = maxLevel s
      /\ includeLlm s' = includeLlm s /\ llmIds s' = llmIds s).
Proof.
  intros Idle Fails. cbv zeta. unfold start. rewrite Idle.
  destruct Fails as [E | [err E]]; rewrite E; cbn; repeat split.
Qed.

End SelfPlay.

(** Worked runs of the tracker. *)
Section SelfPlayRuns.
Import Types UseSelfPlay Scenario.

(** Ten games of a hundred done four seconds after the anchor: the
    estimate is 90 * (4 / 10) = 36 seconds; with none done it is
    cleared. *)
Lemma on_progress_recomputes_eta_run :
  eta (on_progress 5000 5000 ten_of_hundred (set_startRef (Some 1000) initial))
    = Some "36s"
  /\ eta (on_progress 5000 5000 none_of_hundred
            (setEta (Some "36s") (set_startRef (Some 1000) initial)))
     = None.
Proof.
  split.
  - apply (proj1 (on_progress_recomputes_eta 5000 5000 ten_of_hundred
                    (set_startRef (Some 1000) initial))).
    vm_compute. split; reflexivity.
  - apply (proj2 (on_progress_recomputes_eta 5000 5000 none_of_hundred
                    (setEta (Some "36s") (set_startRef (Some 1000) initial)))).
    left. reflexivity.
Defined.

Lemma start_failure_clears_busy_and_anchor_run :
  let s' := fst (start initial 1000 (fun _ => StartRejected "engine missing") initial) in
  busy s' = false
  /\ startRef s' = None
  /\ error s' = Some "engine missing"
  /\ (report s' = None /\ progress s' = None /\ eta s' = None)
  /\ (gamesPerPair s' = 30 /\ parallelism s' = 4
      /\ minLevel s' = 1 /\ maxLevel s' = 12
      /\ includeLlm s' = false /\ llmIds s' = []).
Proof.
  apply (start_failure_clears_busy_and_anchor initial initial 1000
           (fun _ => StartRejected "engine missing")).
  - reflexivity.
  - right. exists "engine missing". reflexivity.
Defined.

(** On either failure the cells differ from "the prologue with [busy]
    cleared": the anchor is reset, and a thrown error is stored. *)
Lemma start_failure_changes_more_than_busy :
  let thrown := fst (start initial 1000 (fun _ => StartRejected "engine missing") initial) in
  let declined := fst (start initial 1000 (fun _ => StartResolved None) initial) in
  let expected := setBusy false (start_prologue 1000 initial) in
  thrown <> expected /\ declined <> expected
  /\ error expected = None /\ error thrown = Some "engine missing"
  /\ startRef expected = Some 1000 /\ startRef thrown = None
  /\ startRef declined = None.
Proof.
  cbv zeta. repeat split; try discriminate.
Qed.

End SelfPlayRuns.

(** * Properties of the error banner *)
Section ErrorBanner.
Import Types App.

(** C9, as the code has it.  The banner shows at most one message: the
    game-pipeline error whenever that one is present (non-empty),
    whichever error was surfaced last, and otherwise the self-play error
    if that one is present. *)
Theorem banner_prefers_game_error (a : Errors) :
  (forall g, UseGame.error (gameHook a) = Some g -> g <> "" ->
             visible a = Some g)
  /\ (truthy_string (UseGame.error (gameHook a)) = false ->
      forall m, UseSelfPlay.error (selfPlay a) = Some m -> m <> "" ->
                visible a = Some m)
  /\ (truthy_string (UseGame.error (gameHook a)) = false ->
      truthy_string (UseSelfPlay.error (selfPlay a)) = false ->
      visible a = None).
Proof.
  unfold visible, errorBanner, error, or_string.
  repeat split.
  - intros g E Ne. rewrite E. cbn.
    destruct (String.eqb g "") eqn:Empty; cbn.
    + apply String.eqb_eq in Empty. contradiction.
    + rewrite Empty. reflexivity.
  - intros G m E Ne. rewrite G, E. cbn.
    destruct (String.eqb m "") eqn:Empty; cbn.
    + apply String.eqb_eq in Empty. contradiction.
    + reflexivity.
  - intros G S. rewrite G, S. reflexivity.
Qed.

End ErrorBanner.

(** Worked runs of the banner. *)
Section ErrorBannerRuns.
Import Types App.

Lemma banner_prefers_game_error_run :
  let a := surface_all [SelfPlayErrorEvent "self-play failed";
                        GameCallRejected (UseGame.make_move 7 7) "cell occupied"] fresh in
  let b := surface_all [SelfPlayErrorEvent "self-play failed"] fresh in
  visible a = Some "cell occupied"
  /\ visible b = Some "self-play failed"
  /\ visible fresh = None.
Proof.
  cbv zeta. split; [|split].
  - apply (proj1 (banner_prefers_game_error _)).
    + reflexivity.
    + discriminate.
  - apply (proj1 (proj2 (banner_prefers_game_error _))).
    + reflexivity.
    + reflexivity.
    + discriminate.
  - apply (proj2 (proj2 (banner_prefers_game_error _))).
    + reflexivity.
    + reflexivity.
Defined.

(** A game error surfaced first and a self-play error surfaced after
    it: both are stored, and the banner shows the older one. *)
Lemma banner_shows_older_game_error :
  let es := [GameCallRejected (UseGame.make_move 7 7) "cell occupied";
             SelfPlayErrorEvent "self-play failed"] in
  let a := surface_all es fresh in
  UseGame.error (gameHook a) = Some "cell occupied"
  /\ UseSelfPlay.error (selfPlay a) = Some "self-play failed"
  /\ last_write es = Some "self-play failed"
  /\ visible a = Some "cell occupied"
  /\ visible a <> last_write es.
Proof.
  cbv zeta. repeat split. discriminate.
Qed.

End ErrorBannerRuns.

(** * Further properties of the move pipeline *)
Section MovePipelineMore.
Import Types UseGame Runs.

Variable World : Type.
Variable invoke : Command -> World -> Outcome * World.
Variable isTauri : bool.

Ltac unfold_pipeline :=
  unfold call, bind, await_invoke, playStoneSound, setBusy, setGame,
    setError, setCanRetryAi, emit, modify_hook, ret, start_of.

(** Every way a run of [makeMove] can go, one goal each. *)
Ltac makeMove_paths h w x y cb flag :=
  unfold run_makeMove;
  destruct (makeMove_blocked h x y) eqn:Guards;
  [ rewrite (makeMove_blocked_noop World invoke isTauri h x y cb flag _ Guards)
  | unfold makeMove_blocked in Guards;
    apply orb_false_elim in Guards as [Guards G4];
    apply orb_false_elim in Guards as [Guards G3];
    unfold makeMove; rewrite Guards, G3, G4; unfold_pipeline;
    destruct isTauri eqn:Tauri; cbn;
    [ destruct (invoke (make_move x y) w) as [[s1|e1] w1] eqn:Move; cbn;
      [ destruct (reply_owed s1 flag) eqn:Owed; cbn;
        [ destruct (invoke ai_move w1) as [[s2|e2] w2] eqn:Reply; cbn;
          [ destruct (truthy (result s2)) eqn:Over2; [destruct cb|]; cbn | ]
        | destruct (truthy (result s1)) eqn:Over1; [destruct cb|]; cbn ]
      | ]
    | ] ].

(** X1. [makeMove] gives the guard back on every path: past the
    preconditions [busy] ends false, whatever the engine answered, and
    a blocked invocation leaves it as it was. *)
Theorem makeMove_releases_guard
    (h : Hook) (w : World) (x y : Z) onRatingsChanged autoTriggerAi :
  busy (hook (run_makeMove World invoke isTauri h w x y onRatingsChanged autoTriggerAi))
  = if makeMove_blocked h x y then busy h else false.
Proof.
  makeMove_paths h w x y onRatingsChanged autoTriggerAi; reflexivity.
Qed.

(** X2. One invocation of [makeMove] sends the engine nothing, or
    [make_move] alone, or [make_move] followed by one [ai_move]; never
    a second move and never [ai_move] first. *)
Theorem makeMove_call_discipline
    (h : Hook) (w : World) (x y : Z) onRatingsChanged autoTriggerAi :
  let calls := commands_of (trace (run_makeMove World invoke isTauri h w x y
                                     onRatingsChanged autoTriggerAi)) in
  calls = [] \/ calls = [make_move x y] \/ calls = [make_move x y; ai_move].
Proof.
  cbv zeta.
  makeMove_paths h w x y onRatingsChanged autoTriggerAi; cbn; auto.
Qed.

(** X3. After a [makeMove] whose [make_move] call returned, the rating
    refresh has been awaited exactly when a callback was passed and the
    snapshot now stored has a result; and never more than once. *)
Theorem makeMove_refreshes_ratings_iff_game_over
    (h : Hook) (w : World) (x y : Z) onRatingsChanged autoTriggerAi
    (returned : GameSnapshot) :
  let r := run_makeMove World invoke isTauri h w x y onRatingsChanged autoTriggerAi in
  In (EvCall (make_move x y) (Returned returned)) (trace r) ->
  (refreshes_of (trace r) <= 1)%nat
  /\ (refreshes_of (trace r) = 1%nat
      <-> onRatingsChanged <> None /\ result (game (hook r)) <> None).
Proof.
  cbv zeta.
  makeMove_paths h w x y onRatingsChanged autoTriggerAi; cbn; intros Hin;
    repeat match goal with
    | H : _ \/ _ |- _ => destruct H
    | H : False |- _ => destruct H
    | H : EvCall _ _ = EvCall _ _ |- _ => inversion H; clear H; subst
    | H : _ = EvCall _ _ |- _ => discriminate H
    end;
    (split; [lia|]);
    try (unfold reply_owed in Owed; rewrite Over1 in Owed; cbn in Owed);
    repeat match goal with
    | H : truthy ?v = _ |- _ => destruct v; cbn in H; try discriminate H; clear H
    end;
    split; try lia; try discriminate;
    try (intros _; split; discriminate);
    try (intros [? ?]; congruence).
  intros [_ Over]. unfold reply_owed in Owed.
  destruct (result returned); [discriminate Owed | contradiction].
Qed.

(** X4. The retry flag is raised by a rejected [ai_move] and by nothing
    else: after any call it is true exactly when the command was
    [ai_move], the app runs under Tauri and the engine rejected. *)
Theorem call_retryable_iff_rejected_ai_move (c : Command) (s : Sys World) :
  canRetryAi (hook (snd (call World invoke isTauri c s))) = true
  <-> isTauri = true /\ c = ai_move
      /\ exists err, fst (invoke c (world s)) = Rejected err.
Proof.
  unfold_pipeline. destruct isTauri; cbn.
  - destruct (invoke c (world s)) as [[snap|err] w'] eqn:E; cbn.
    + split; [discriminate|]. intros (_ & _ & e & He). discriminate He.
    + destruct c; cbn; split; intros H; try discriminate H;
        try reflexivity;
        try (destruct H as (_ & F & _); discriminate F).
      repeat split. exists err. reflexivity.
  - split; [discriminate|]. intros [F _]. discriminate F.
Qed.


(** X7. [refreshState], [newGame] and [loadGame] never touch [busy] and
    never raise the retry flag; they store the snapshot the engine
    returned and clear the error, or keep the game and store the
    message. *)
Theorem snapshot_loaders_outcome
    (h : Hook) (w : World) (m : option GameMode) (path : string) :
  let after (op : M World unit) := hook (snd (op (start_of World h w))) in
  let settled (c : Command) (h' : Hook) :=
    busy h' = busy h /\ canRetryAi h' = false
    /\ (if isTauri then
          match fst (invoke c w) with
          | Resolved snapshot => game h' = snapshot /\ error h' = None
          | Rejected err => game h' = game h /\ error h' = Some err
          end
        else game h' = game h
             /\ error h' = Some "Run via Tauri to enable game commands.") in
  settled get_state (after (refreshState World invoke isTauri))
  /\ settled (new_game m) (after (newGame World invoke isTauri m))
  /\ settled (load_game path) (after (loadGame World invoke isTauri path)).
Proof.
  cbv zeta. unfold refreshState, newGame, loadGame. unfold_pipeline.
  destruct isTauri; cbn.
  - destruct (invoke get_state w) as [[? | ?] ?],
             (invoke (new_game m) w) as [[? | ?] ?],
             (invoke (load_game path) w) as [[? | ?] ?]; cbn; repeat split.
  - repeat split.
Qed.

(** X6. With no call in flight and a result on the captured snapshot, a
    forced [requestAiMove] issues [ai_move] first thing, where an
    unforced one returns without a call: this is what lets the engine
    open a new game while the finished one is still on screen. *)
Theorem forced_request_ignores_stale_result
    (h : Hook) (w : World) onRatingsChanged :
  busy h = false ->
  result (game h) <> None ->
  (exists res tl,
      trace (run_requestAiMove World invoke isTauri h w onRatingsChanged true)
      = EvCall ai_move res :: tl)
  /\ requestAiMove World invoke isTauri h onRatingsChanged false (start_of World h w)
     = (tt, start_of World h w).
Proof.
  intros Idle Over. destruct (result (game h)) eqn:R; [|contradiction].
  unfold run_requestAiMove, requestAiMove. rewrite Idle, R. cbn. split.
  - unfold_pipeline. destruct isTauri; cbn.
    + destruct (invoke ai_move w) as [[s1|e] w1]; cbn.
      * destruct (truthy (result s1)); [destruct onRatingsChanged|];
          cbn; eauto.
      * eauto.
    + eauto.
  - reflexivity.
Qed.

End MovePipelineMore.

(** Outside Tauri no operation of the game hook reaches the engine or
    changes the snapshot. *)
Section OutsideTauri.
Import Types UseGame Runs.

Variable World : Type.
Variable invoke : Command -> World -> Outcome * World.

(** Run in a plain browser ([isTauri] false), [makeMove],
    [requestAiMove] and [newGame] leave the engine and the snapshot
    untouched and never raise the retry flag; [busy] ends as the
    operation found it or false. *)
Theorem outside_tauri_engine_untouched
    (h : Hook) (w : World) (x y : Z) onRatingsChanged (flag : bool)
    (m : option GameMode) :
  let untouched (r : Sys World) :=
    world r = w /\ game (hook r) = game h /\ canRetryAi (hook r) = canRetryAi h
    \/ world r = w /\ game (hook r) = game h /\ canRetryAi (hook r) = false
       /\ error (hook r) = Some "Run via Tauri to enable game commands." in
  untouched (run_makeMove World invoke false h w x y onRatingsChanged flag)
  /\ untouched (run_requestAiMove World invoke false h w onRatingsChanged flag)
  /\ untouched (snd (newGame World invoke false m (start_of World h w))).
Proof.
  cbv zeta. repeat split.
  - unfold run_makeMove.
    destruct (makeMove_blocked h x y) eqn:Guards.
    + rewrite (makeMove_blocked_noop World invoke false h x y _ _ _ Guards).
      left. repeat split.
    + unfold makeMove_blocked in Guards.
      apply orb_false_elim in Guards as [Guards G4].
      apply orb_false_elim in Guards as [Guards G3].
      unfold makeMove. rewrite Guards, G3, G4. right. repeat split.
  - unfold run_requestAiMove, requestAiMove.
    destruct (busy h || negb flag && truthy (result (game h))).
    + left. repeat split.
    + right. repeat split.
  - right. repeat split.
Qed.

End OutsideTauri.

(** Worked runs for the properties above. *)
Section MovePipelineMoreRuns.
Import Types UseGame Runs Scenario.

Lemma makeMove_refreshes_ratings_iff_game_over_run :
  let r := run_makeMove (list Outcome) scripted true initial
             [Resolved after_human; Resolved white_won] 7 7 (Some (fun w => w)) true in
  (refreshes_of (trace r) <= 1)%nat
  /\ (refreshes_of (trace r) = 1%nat
      <-> Some (fun w : list Outcome => w) <> None
          /\ result (game (hook r)) <> None).
Proof.
  apply (makeMove_refreshes_ratings_iff_game_over (list Outcome) scripted true
           initial [Resolved after_human; Resolved white_won] 7 7
           (Some (fun w => w)) true after_human).
  vm_compute. left. reflexivity.
Defined.


Lemma forced_request_ignores_stale_result_run :
  (exists res tl,
      trace (run_requestAiMove (list Outcome) scripted true stale_result
               [Resolved after_ai] None true)
      = EvCall ai_move res :: tl)
  /\ requestAiMove (list Outcome) scripted true stale_result None false
       (start_of (list Outcome) stale_result [Resolved after_ai])
     = (tt, start_of (list Outcome) stale_result [Resolved after_ai]).
Proof.
  apply (forced_request_ignores_stale_result (list Outcome) scripted true
           stale_result [Resolved after_ai] None).
  - reflexivity.
  - vm_compute. discriminate.
Defined.

End MovePipelineMoreRuns.

(** * Further properties of the auto-play scheduler *)
Section AutoPlayMore.
Import UseAutoPlay Runs.

Ltac expose_state s :=
  destruct s as [ip sp ir st [[f0 over0 ai0] ip0 sp0] pc ivs nx stp].

Ltac expose_timer Own cleanup :=
  unfold timer_owned in Own; cbn in Own;
  match type of Own with
  | match ?ir with _ => _ end =>
      destruct ir as [id|];
      [ destruct Own as (-> & Lt & [[id0 d0 g0] [-> Id]]); cbn in Id; subst id0
      | subst; destruct cleanup ]
  end.

Ltac evaluate :=
  lazy -[Nat.eqb Peano.lt]; rewrite ?Nat.eqb_refl; lazy -[Nat.eqb Peano.lt].

(** X8. The scheduler never holds more than one interval, and holds one
    exactly when [intervalRef] names it: no interval is leaked. *)
Theorem scheduler_holds_at_most_one_interval (s : State) :
  reachable s ->
  (List.length (intervals s) <= 1)%nat
  /\ (intervals s = [] <-> intervalRef s = None)
  /\ (forall t, In t (intervals s) -> intervalRef s = Some (interval_id t)).
Proof.
  intros Reach. destruct (reachable_invariant s Reach) as [Own _].
  unfold timer_owned in Own. destruct (intervalRef s) as [id|].
  - destruct Own as (_ & _ & t & Tab & Id). rewrite Tab. cbn.
    repeat split; try lia; try discriminate.
    intros t' [<- | []]. congruence.
  - rewrite Own. cbn. repeat split; auto. intros t [].
Qed.

Lemma commit_timer_matches (run_playing run_mode : bool) (r : Rendered) (s : State) :
  timer_owned s ->
  timer_matches s ->
  seen_isPlaying r = isPlaying s ->
  seen_speed r = speed s ->
  (run_playing = false ->
   seen_isPlaying (rendered s) = isPlaying s
   /\ seen_speed (rendered s) = speed s
   /\ isGameOver (options (rendered s)) = isGameOver (options r)
   /\ isAiVsAi (options (rendered s)) = isAiVsAi (options r)) ->
  (run_mode = false ->
   isAiVsAi (options (rendered s)) = isAiVsAi (options r)) ->
  timer_matches (commit run_playing run_mode r s).
Proof.
  intros Own Match SeenP SeenS SameP SameM. expose_state s.
  destruct r as [[f over ai] rip rsp]. cbn in SeenP, SeenS. subst rip rsp.
  unfold timer_matches in Match. cbn in Match, SameP, SameM.
  expose_timer Own pc.
  - destruct (Match _ (or_introl eq_refl)) as (-> & -> & Gov & Delay & G).
    cbn in Delay, G. subst d0 g0.
    unfold governing in Gov. cbn in Gov.
    apply andb_prop in Gov as [-> Over0].
    apply negb_true_iff in Over0. subst over0. clear Match.
    destruct run_playing, run_mode, over, ai, st;
      try (destruct (SameP eq_refl) as (_ & E1 & E2 & E3));
      try (specialize (SameM eq_refl));
      try discriminate; subst;
      unfold timer_matches; evaluate;
      intros t Hin; repeat destruct Hin as [Hin | Hin]; try contradiction;
      subst t; repeat split.
  - clear Match.
    destruct run_playing, run_mode, ip, over, ai, st;
      unfold timer_matches; evaluate;
      intros t Hin; repeat destruct Hin as [Hin | Hin]; try contradiction;
      subst t; repeat split.
  - clear Match.
    destruct run_playing, run_mode, ip, over, ai, st;
      unfold timer_matches; evaluate;
      intros t Hin; repeat destruct Hin as [Hin | Hin]; try contradiction;
      subst t; repeat split.
Qed.

Lemma speed_eqb_true (a b : AutoPlaySpeed) : speed_eqb a b = true -> a = b.
Proof. destruct a, b; cbn; congruence. Qed.

Lemma render_timer_matches (o : Options) (s : State) :
  timer_owned s -> timer_matches s -> timer_matches (render o s).
Proof.
  intros Own Match. unfold render. apply commit_timer_matches; auto.
  - intros Same. apply negb_false_iff in Same.
    unfold playing_deps_same in Same. cbn in Same.
    repeat (apply andb_prop in Same as [Same ?]).
    repeat split; try (apply Bool.eqb_prop; assumption).
    apply speed_eqb_true. assumption.
  - intros Same. apply negb_false_iff, Bool.eqb_prop in Same. exact Same.
Qed.

Lemma act_timer_matches (a : Action) (s : State) :
  timer_owned s -> timer_matches s -> timer_matches (act a s).
Proof.
  destruct a as [o| | |sp'| |id'|];
    [apply render_timer_matches| | | | | |];
    intros Own Match; expose_state s; unfold timer_matches in Match;
    cbn in Match; expose_timer Own pc;
    try (destruct (Match _ (or_introl eq_refl)) as (-> & -> & Gov & Delay & G);
         cbn in Delay, G; subst d0 g0; unfold governing in Gov; cbn in Gov;
         apply andb_prop in Gov as [-> Over0];
         apply negb_true_iff in Over0; subst over0);
    clear Match.
  all: try (destruct st; unfold timer_matches; evaluate;
            intros t Hin; repeat destruct Hin as [Hin | Hin];
            try contradiction; subst t; repeat split; fail).
  all: try (destruct ip, over0, ai0, st; unfold timer_matches; evaluate;
            intros t Hin; repeat destruct Hin as [Hin | Hin];
            try contradiction; subst t; repeat split; fail).
  all: unfold act, tick; cbn [intervals find interval_id];
       try destruct (Nat.eqb _ id') eqn:E;
       try destruct ip; try destruct over0; try destruct ai0; destruct st;
       unfold timer_matches; evaluate;
       intros t Hin; repeat destruct Hin as [Hin | Hin];
       try contradiction; subst t; repeat split.
Qed.

Lemma mount_timer_matches (o : Options) : timer_matches (mount o).
Proof.
  destruct o as [f over ai]; destruct over, ai;
    unfold timer_matches; lazy; intros t [].
Qed.

Lemma reachable_timer_matches (s : State) : reachable s -> timer_matches s.
Proof.
  induction 1 as [o | a s Reach IH].
  - apply mount_timer_matches.
  - apply act_timer_matches; [|exact IH].
    apply (reachable_invariant s Reach).
Qed.

(** X9. An interval runs only while the scheduler is playing a game that
    is engine-vs-engine and not over as last rendered, and it runs at
    the delay of the speed last rendered. *)
Theorem active_interval_matches_state (s : State) (t : Interval) :
  reachable s ->
  In t (intervals s) ->
  isPlaying s = true
  /\ isAiVsAi (options (rendered s)) = true
  /\ isGameOver (options (rendered s)) = false
  /\ delay t = SPEED_INTERVALS (seen_speed (rendered s)).
Proof.
  intros Reach Hin.
  destruct (reachable_timer_matches s Reach t Hin) as (P & _ & Gov & D & _).
  unfold governing in Gov. apply andb_prop in Gov as [Ai Over].
  apply negb_true_iff in Over. auto.
Qed.

(** X10. After [stop] no timer callback does anything: the interval table
    is empty, and any number of late ticks leave the state as [stop]
    left it. *)
Theorem stop_cancels_every_tick (s : State) (ids : list nat) :
  reachable s ->
  isPlaying (stop s) = false
  /\ intervals (stop s) = []
  /\ run_actions (map Tick ids) (stop s) = stop s.
Proof.
  intros Reach. destruct (reachable_invariant s Reach) as [Own _].
  assert (Empty : intervals (stop s) = []).
  { expose_state s. expose_timer Own pc; evaluate; reflexivity. }
  split; [|split; [exact Empty|]].
  - unfold stop. destruct (clearAutoPlay_frame (setIsPlaying false s)) as [P _].
    rewrite P. reflexivity.
  - assert (Idle : forall i, tick i (stop s) = stop s).
    { intros i. unfold tick. rewrite Empty. reflexivity. }
    unfold run_actions. induction ids as [|i ids IH]; [reflexivity|].
    cbn [map fold_left act]. rewrite Idle. exact IH.
Qed.

Lemma commit_keeps_latch (run_playing run_mode : bool) (r : Rendered) (s : State) :
  steppingRef s = true ->
  steppingRef (commit run_playing run_mode r s) = true
  /\ steps (commit run_playing run_mode r s) = steps s.
Proof.
  intros Latch. expose_state s. cbn in Latch. subst st.
  destruct r as [[f over ai] rip rsp].
  destruct run_playing, run_mode, pc, ir, rip, over, ai; evaluate; auto.
Qed.

Lemma act_keeps_latch (a : Action) (s : State) :
  is_settle a = false ->
  steppingRef s = true ->
  steppingRef (act a s) = true /\ steps (act a s) = steps s.
Proof.
  intros NotSettle Latch.
  destruct a as [o| | |sp'| |id'|]; try discriminate NotSettle.
  - apply commit_keeps_latch. exact Latch.
  - expose_state s. cbn in Latch. subst st.
    destruct ai0, over0; evaluate; auto.
  - expose_state s. cbn in Latch. subst st. destruct ir; evaluate; auto.
  - expose_state s. cbn in Latch. subst st. evaluate; auto.
  - expose_state s. cbn in Latch. subst st. evaluate; auto.
  - unfold act, tick. destruct (find _ _); [|auto].
    unfold step. rewrite Latch. auto.
Qed.

(** X11. While a step is in flight no further [onStep()] is issued: until
    the pending one settles, ticks, manual steps, renders, speed
    changes, [start] and [stop] leave the count of steps as it is. *)
Theorem no_step_overlaps_a_pending_one (acts : list Action) (s : State) :
  steppingRef s = true ->
  forallb (fun a => negb (is_settle a)) acts = true ->
  steps (run_actions acts s) = steps s
  /\ steppingRef (run_actions acts s) = true.
Proof.
  revert s. induction acts as [|a acts IH]; intros s Latch Quiet.
  - auto.
  - cbn in Quiet. apply andb_prop in Quiet as [NotSettle Quiet].
    apply negb_true_iff in NotSettle.
    destruct (act_keeps_latch a s NotSettle Latch) as [Latch' Steps'].
    destruct (IH (act a s) Latch' Quiet) as [Steps Latched].
    unfold run_actions in *. cbn [fold_left].
    split; [rewrite Steps; exact Steps' | exact Latched].
Qed.

(** X12. Each event issues at most one [onStep()], and the count never
    goes down. *)
Theorem act_issues_at_most_one_step (a : Action) (s : State) :
  (steps s <= steps (act a s) <= S (steps s))%nat.
Proof.
  destruct a as [o| | |sp'| |id'|].
  - expose_state s. destruct o as [f over ai]. unfold act, render.
    cbn [rendered isPlaying speed].
    generalize (negb (playing_deps_same
      {| options := {| onStep := f0; isGameOver := over0; isAiVsAi := ai0 |};
         seen_isPlaying := ip0; seen_speed := sp0 |}
      {| options := {| onStep := f; isGameOver := over; isAiVsAi := ai |};
         seen_isPlaying := ip; seen_speed := sp |})).
    generalize (negb (mode_deps_same
      {| options := {| onStep := f0; isGameOver := over0; isAiVsAi := ai0 |};
         seen_isPlaying := ip0; seen_speed := sp0 |}
      {| options := {| onStep := f; isGameOver := over; isAiVsAi := ai |};
         seen_isPlaying := ip; seen_speed := sp |})).
    intros run_mode run_playing.
    destruct run_playing, run_mode, pc, ir, ip, over, ai, st; evaluate; lia.
  - expose_state s. destruct ai0, over0; evaluate; lia.
  - expose_state s. destruct ir; evaluate; lia.
  - expose_state s. evaluate. lia.
  - expose_state s. destruct st, over0; evaluate; lia.
  - unfold act, tick. destruct (find _ _) as [t|]; [|lia].
    unfold step. destruct (steppingRef s || tick_isGameOver t); cbn; lia.
  - expose_state s. evaluate. lia.
Qed.

(** X13. Pressing Play on a stopped scheduler of a governed game: the next
    render installs one interval at the delay of the current speed and
    issues the first step at once, unless a step is still in flight. *)
Theorem start_then_render_begins_playing (s : State) (o : Options) :
  reachable s ->
  seen_isPlaying (rendered s) = false ->
  isAiVsAi (options (rendered s)) = true ->
  isGameOver (options (rendered s)) = false ->
  isAiVsAi o = true ->
  isGameOver o = false ->
  let s' := render o (start s) in
  isPlaying s' = true
  /\ intervalRef s' = Some (next_interval s)
  /\ intervals s' = [{| interval_id := next_interval s;
                        delay := SPEED_INTERVALS (speed s);
                        tick_isGameOver := false |}]
  /\ steps s' = (if steppingRef s then steps s else S (steps s)).
Proof.
  intros Reach Seen Ai0 Over0 Ai Over.
  destruct (reachable_invariant s Reach) as [Own _].
  expose_state s. destruct o as [f over ai].
  cbn in Seen, Ai0, Over0, Ai, Over. subst ip0 ai0 over0 ai over.
  expose_timer Own pc; destruct st;
    unfold render, start, playing_deps_same, mode_deps_same;
    cbn [options seen_isPlaying seen_speed isGameOver isAiVsAi onStep
         rendered isPlaying speed negb orb setIsPlaying];
    cbn [andb Bool.eqb negb];
    evaluate; repeat split.
Qed.

(** X14. A render that brings the same options to unchanged cells runs no
    effect: the state, its timer and the count of steps stay exactly
    as they were. *)
Theorem render_unchanged_is_idle (s : State) :
  seen_isPlaying (rendered s) = isPlaying s ->
  seen_speed (rendered s) = speed s ->
  render (options (rendered s)) s = s.
Proof.
  expose_state s. cbn. intros -> ->.
  unfold render, playing_deps_same, mode_deps_same.
  cbn [options seen_isPlaying seen_speed isGameOver isAiVsAi onStep
       rendered isPlaying speed].
  rewrite !Bool.eqb_reflx, Nat.eqb_refl.
  assert (Same : speed_eqb sp sp = true) by (destruct sp; reflexivity).
  rewrite Same. reflexivity.
Qed.

(** X15. A render that passes a new [onStep] function while playing re-runs
    the playing effect: the interval is replaced by a fresh one and one
    more step is issued at once, unless a step is in flight.  App
    passes a new [onStep] in every render. *)
Theorem new_onStep_restarts_interval (s : State) (o : Options) :
  reachable s ->
  isPlaying s = true ->
  onStep o <> onStep (options (rendered s)) ->
  isAiVsAi o = true ->
  isGameOver o = false ->
  let s' := render o s in
  intervalRef s' = Some (next_interval s)
  /\ intervals s' = [{| interval_id := next_interval s;
                        delay := SPEED_INTERVALS (speed s);
                        tick_isGameOver := false |}]
  /\ steps s' = (if steppingRef s then steps s else S (steps s)).
Proof.
  intros Reach Playing Fresh Ai Over.
  destruct (reachable_invariant s Reach) as [Own _].
  expose_state s. destruct o as [f over ai].
  cbn in Playing, Fresh, Ai, Over. subst ip ai over.
  assert (Diff : Nat.eqb f0 f = false).
  { apply Nat.eqb_neq. congruence. }
  expose_timer Own pc; destruct st;
    unfold render, playing_deps_same, mode_deps_same;
    cbn [options seen_isPlaying seen_speed isGameOver isAiVsAi onStep
         rendered isPlaying speed];
    rewrite Diff, ?andb_false_r; cbn [andb negb];
    destruct (negb (Bool.eqb ai0 true));
    evaluate; repeat split.
Qed.

(** [start] does nothing while the game last rendered is over or is
    not engine-vs-engine, and the scheduler is then not playing. *)
Theorem start_is_refused_when_ungoverned (s : State) :
  reachable s ->
  isGameOver (options (rendered s)) = true
  \/ isAiVsAi (options (rendered s)) = false ->
  start s = s /\ isPlaying s = false.
Proof.
  intros Reach Cond. destruct (reachable_invariant s Reach) as [_ Stopped].
  split.
  - unfold start. destruct Cond as [-> | ->]; cbn; [|reflexivity].
    apply orb_true_r || (destruct (isAiVsAi _); reflexivity).
  - apply Stopped. apply governing_false. exact Cond.
Qed.

End AutoPlayMore.

(** Worked runs for the properties above. *)
Section AutoPlayMoreRuns.
Import UseAutoPlay Runs Scenario.

Lemma scheduler_holds_at_most_one_interval_run :
  (List.length (intervals playing_medium) <= 1)%nat
  /\ (intervals playing_medium = [] <-> intervalRef playing_medium = None)
  /\ (forall t, In t (intervals playing_medium) ->
                intervalRef playing_medium = Some (interval_id t)).
Proof.
  apply (scheduler_holds_at_most_one_interval playing_medium).
  unfold playing_medium. repeat constructor.
Defined.

Lemma active_interval_matches_state_run :
  isPlaying playing_medium = true
  /\ isAiVsAi (options (rendered playing_medium)) = true
  /\ isGameOver (options (rendered playing_medium)) = false
  /\ delay {| interval_id := 0; delay := 1000; tick_isGameOver := false |}
     = SPEED_INTERVALS (seen_speed (rendered playing_medium)).
Proof.
  apply (active_interval_matches_state playing_medium
           {| interval_id := 0; delay := 1000; tick_isGameOver := false |}).
  - unfold playing_medium. repeat constructor.
  - vm_compute. left. reflexivity.
Defined.

Lemma stop_cancels_every_tick_run :
  isPlaying (stop playing_medium) = false
  /\ intervals (stop playing_medium) = []
  /\ run_actions (map Tick [0; 0; 1]%nat) (stop playing_medium)
     = stop playing_medium.
Proof.
  apply (stop_cancels_every_tick playing_medium [0; 0; 1]%nat).
  unfold playing_medium. repeat constructor.
Defined.

Lemma no_step_overlaps_a_pending_one_run :
  let busy := act (Tick 0) playing_medium in
  let acts := [Tick 0; Step; SetSpeed fast; Render watching; Tick 1] in
  steps (run_actions acts busy) = steps busy
  /\ steppingRef (run_actions acts busy) = true.
Proof.
  apply (no_step_overlaps_a_pending_one
           [Tick 0; Step; SetSpeed fast; Render watching; Tick 1]
           (act (Tick 0) playing_medium)).
  - reflexivity.
  - reflexivity.
Defined.

Lemma start_then_render_begins_playing_run :
  let s' := render watching (start (mount watching)) in
  isPlaying s' = true
  /\ intervalRef s' = Some (next_interval (mount watching))
  /\ intervals s' = [{| interval_id := next_interval (mount watching);
                        delay := SPEED_INTERVALS (speed (mount watching));
                        tick_isGameOver := false |}]
  /\ steps s' = (if steppingRef (mount watching) then steps (mount watching)
                 else S (steps (mount watching))).
Proof.
  apply (start_then_render_begins_playing (mount watching) watching).
  - constructor.
  - reflexivity.
  - reflexivity.
  - reflexivity.
  - reflexivity.
  - reflexivity.
Defined.

Lemma render_unchanged_is_idle_run :
  render (options (rendered playing_medium)) playing_medium = playing_medium.
Proof.
  apply (render_unchanged_is_idle playing_medium).
  - reflexivity.
  - reflexivity.
Defined.

Lemma new_onStep_restarts_interval_run :
  let o := {| onStep := 1; isGameOver := false; isAiVsAi := true |} in
  let s' := render o playing_medium in
  intervalRef s' = Some (next_interval playing_medium)
  /\ intervals s' = [{| interval_id := next_interval playing_medium;
                        delay := SPEED_INTERVALS (speed playing_medium);
                        tick_isGameOver := false |}]
  /\ steps s' = (if steppingRef playing_medium then steps playing_medium
                 else S (steps playing_medium)).
Proof.
  apply (new_onStep_restarts_interval playing_medium
           {| onStep := 1; isGameOver := false; isAiVsAi := true |}).
  - unfold playing_medium. repeat constructor.
  - reflexivity.
  - vm_compute. discriminate.
  - reflexivity.
  - reflexivity.
Defined.

Lemma start_is_refused_when_ungoverned_run :
  start (mount finished) = mount finished /\ isPlaying (mount finished) = false.
Proof.
  apply (start_is_refused_when_ungoverned (mount finished)).
  - constructor.
  - left. reflexivity.
Defined.

End AutoPlayMoreRuns.

(** * Further properties of the self-play tracker *)
Section SelfPlayMore.
Import Types UseSelfPlay Selection.

Lemma midrun_keeps_busy (e : Midrun) (s : State) :
  busy s = true ->
  busy (midrun e s) = true /\ report (midrun e s) = report s.
Proof.
  intros Busy. destruct e as [now1 now2 payload | rejected | now outcome]; cbn.
  - unfold on_progress.
    destruct (anchor_unset _);
      destruct ((0 <? completed payload) && (0 <? total payload)); cbn; auto.
  - unfold stop. rewrite Busy. cbn. destruct rejected; cbn; auto.
  - unfold start. rewrite Busy. cbn. auto.
Qed.

(** X16. While a job runs nothing short of its end clears [busy]: progress
    events, presses of Stop (also failing ones) and further presses of
    Start leave [busy] set and the last report in place. *)
Theorem busy_outlives_progress_and_stop (es : list Midrun) (s : State) :
  busy s = true ->
  busy (run_midrun es s) = true /\ report (run_midrun es s) = report s.
Proof.
  revert s. unfold run_midrun.
  induction es as [|e es IH]; intros s Busy; [auto|].
  cbn [fold_left]. destruct (midrun_keeps_busy e s Busy) as [Busy' Report'].
  destruct (IH (midrun e s) Busy') as [B R]. split; congruence.
Qed.

Lemma midrun_keeps_anchor (e : Midrun) (s : State) (t : Z) :
  is_progress e = true ->
  startRef s = Some t -> t <> 0 ->
  startRef (midrun e s) = Some t.
Proof.
  intros Progress Ref Nonzero.
  destruct e as [now1 now2 payload | |]; try discriminate Progress.
  cbn. rewrite on_progress_anchor. unfold anchor_unset, anchor. rewrite Ref.
  apply Z.eqb_neq in Nonzero. rewrite Nonzero. reflexivity.
Qed.

(** X17. Progress events never move an anchor that is set: through any
    stream of them the elapsed time stays measured from the same
    instant. *)
Theorem anchor_survives_progress (es : list Midrun) (s : State) (t : Z) :
  forallb is_progress es = true ->
  startRef s = Some t -> t <> 0 ->
  startRef (run_midrun es s) = Some t.
Proof.
  revert s. unfold run_midrun.
  induction es as [|e es IH]; intros s All Ref Nonzero; [exact Ref|].
  cbn in All. apply andb_prop in All as [Progress All].
  cbn [fold_left]. apply IH; auto.
  apply midrun_keeps_anchor; auto.
Qed.

(** A job-start call that resolves to a boolean, [false] included,
    leaves the tracker busy, anchored at the time of the press, with
    report, progress, ETA and error cleared: only [null] counts as
    "not started". *)
Theorem start_resolved_keeps_busy
    (r s : State) (now : Z) (engine : StartArgs -> StartOutcome) (answer : bool) :
  busy r = false ->
  engine (start_args r) = StartResolved (Some answer) ->
  let s' := fst (start r now engine s) in
  busy s' = true /\ startRef s' = Some now /\ error s' = None
  /\ report s' = None /\ progress s' = None /\ eta s' = None
  /\ snd (start r now engine s) = Some (start_args r).
Proof.
  intros Idle Answer. cbv zeta. unfold start. rewrite Idle, Answer.
  cbn. repeat split.
Qed.

Lemma Qfloor_div_60 (q : Q) : Qfloor (q / 60) = Qfloor q / 60.
Proof.
  destruct q as [a b]. unfold Qdiv, Qmult, Qinv, Qfloor. cbn.
  rewrite Z.mul_1_r, Pos2Z.inj_mul. symmetry. apply Z.div_div; lia.
Qed.

Lemma Qfloor_minus_60 (q : Q) (k : Z) :
  Qfloor (q - 60 * inject_Z k) = Qfloor q - 60 * k.
Proof.
  destruct q as [a b]. unfold Qminus, Qplus, Qopp, Qmult, inject_Z, Qfloor.
  cbn [Qnum Qden]. rewrite !Pos.mul_1_r, Z.mul_1_r.
  rewrite <- Z.mul_opp_l. rewrite Z.div_add by lia. lia.
Qed.

Lemma trunc_positive (q : Q) : (0 < q)%Q -> trunc (q / 60) = Qfloor (q / 60).
Proof.
  intros Pos. unfold trunc.
  assert (Le : (0 <= q / 60)%Q).
  { apply Qle_shift_div_l; [reflexivity|]. rewrite Qmult_0_l.
    apply Qlt_le_weak. exact Pos. }
  apply Qle_bool_iff in Le. rewrite Le. reflexivity.
Qed.

(** X18. [formatDuration] shows whole seconds only, split at one minute
    and one hour: under a minute "Ns", under an hour "Mm SSs", from an
    hour on "Hh MMm", with seconds and minutes below 60 and two digits
    wide; a duration that is not positive shows as "0s". *)
Theorem formatDuration_by_whole_seconds (seconds : Q) :
  let n := Qfloor seconds in
  ((seconds <= 0)%Q -> formatDuration seconds = "0s")
  /\ ((0 < seconds)%Q -> n < 60 ->
      formatDuration seconds = String_of n ++ "s")
  /\ (60 <= n < 3600 ->
      formatDuration seconds
      = String_of (n / 60) ++ "m " ++ padStart2 (String_of (n mod 60)) ++ "s")
  /\ (3600 <= n ->
      formatDuration seconds
      = String_of (n / 3600) ++ "h "
        ++ padStart2 (String_of ((n / 60) mod 60)) ++ "m").
Proof.
  cbv zeta. unfold formatDuration.
  assert (Floor0 : (0 < seconds)%Q -> 0 <= Qfloor seconds).
  { intros Pos. change 0 with (Qfloor 0). apply Qfloor_resp_le.
    apply Qlt_le_weak. exact Pos. }
  assert (PosOf : 60 <= Qfloor seconds -> (0 < seconds)%Q).
  { intros Big. apply Qlt_le_trans with (inject_Z (Qfloor seconds)).
    - change 0%Q with (inject_Z 0). rewrite <- Zlt_Qlt. lia.
    - apply Qfloor_le. }
  assert (Shape : (0 < seconds)%Q ->
            Qle_bool seconds 0 = false
            /\ Qfloor (js_rem seconds 60) = Qfloor seconds mod 60).
  { intros Pos. split.
    - destruct (Qle_bool seconds 0) eqn:E; [|reflexivity].
      apply Qle_bool_iff in E. exfalso. apply (Qlt_not_le _ _ Pos E).
    - unfold js_rem. rewrite (trunc_positive _ Pos), Qfloor_minus_60,
        Qfloor_div_60. rewrite Z.mod_eq by lia. reflexivity. }
  repeat split.
  - intros Neg. apply Qle_bool_iff in Neg. rewrite Neg. reflexivity.
  - intros Pos Small. destruct (Shape Pos) as [-> ->].
    rewrite Qfloor_div_60. pose proof (Floor0 Pos) as Nonneg.
    rewrite Z.div_small by lia. cbn [Z.leb Z.ltb Z.compare].
    rewrite Z.mod_small by lia. reflexivity.
  - intros [Lo Hi]. destruct (Shape (PosOf Lo)) as [-> ->].
    rewrite Qfloor_div_60.
    assert (M : 1 <= Qfloor seconds / 60 < 60).
    { split; [apply Z.div_le_lower_bound; lia
             | apply Z.div_lt_upper_bound; lia]. }
    destruct (Z.leb_spec 60 (Qfloor seconds / 60)); [lia|].
    destruct (Z.ltb_spec 0 (Qfloor seconds / 60)); [|lia].
    reflexivity.
  - intros Lo. assert (Lo' : 60 <= Qfloor seconds) by lia.
    destruct (Shape (PosOf Lo')) as [-> _].
    rewrite Qfloor_div_60.
    assert (M : 60 <= Qfloor seconds / 60).
    { apply Z.div_le_lower_bound; lia. }
    destruct (Z.leb_spec 60 (Qfloor seconds / 60)); [|lia].
    rewrite Z.div_div by lia. rewrite Z.rem_mod_nonneg by lia.
    reflexivity.
Qed.

Lemma includes_In (l : list string) (x : string) :
  includes l x = true <-> In x l.
Proof.
  unfold includes. rewrite existsb_exists. split.
  - intros (y & Hin & E). apply String.eqb_eq in E. subst. exact Hin.
  - intros Hin. exists x. split; [exact Hin | apply String.eqb_refl].
Qed.

(** X19. [toggleLlmId] makes the selection contain the id, or not contain
    it, and changes nothing else: the other ids stay, and a selection
    without repetitions stays without. *)
Theorem toggleLlmId_sets_membership
    (x : string) (checked : bool) (s : State) (z : string) :
  let s' := toggleLlmId x checked s in
  (In z (llmIds s') <->
     if checked then z = x \/ In z (llmIds s)
     else In z (llmIds s) /\ z <> x)
  /\ (NoDup (llmIds s) -> NoDup (llmIds s'))
  /\ includeLlm s' = includeLlm s /\ busy s' = busy s.
Proof.
  cbv zeta. unfold toggleLlmId, toggled. cbn. repeat split.
  - destruct checked.
    + destruct (includes (llmIds s) x) eqn:Inc.
      * intros Hin. right. exact Hin.
      * intros Hin. apply in_app_or in Hin as [Hin | [<- | []]]; auto.
    + intros Hin. apply filter_In in Hin as [Hin Ne]. split; [exact Hin|].
      intros ->. rewrite String.eqb_refl in Ne. discriminate Ne.
  - destruct checked.
    + destruct (includes (llmIds s) x) eqn:Inc.
      * intros [-> | Hin]; [apply includes_In; exact Inc | exact Hin].
      * intros [-> | Hin]; apply in_or_app; [right; left; reflexivity | left; exact Hin].
    + intros [Hin Ne]. apply filter_In. split; [exact Hin|].
      apply negb_true_iff. apply String.eqb_neq. exact Ne.
  - intros Nodup. destruct checked.
    + destruct (includes (llmIds s) x) eqn:Inc; [exact Nodup|].
      apply NoDup_app; [exact Nodup | repeat constructor; intros [] |].
      -- intros y Hy [<- | []].
         apply includes_In in Hy. congruence.
    + apply NoDup_filter. exact Nodup.
Qed.

(** Ticking an id that was not selected and unticking it again gives
    back the selection as it was, in the same order. *)
Theorem toggleLlmId_untick_undoes_tick (x : string) (s : State) :
  ~ In x (llmIds s) ->
  llmIds (toggleLlmId x false (toggleLlmId x true s)) = llmIds s.
Proof.
  intros Absent. unfold toggleLlmId, toggled. cbn.
  destruct (includes (llmIds s) x) eqn:Inc.
  - apply includes_In in Inc. contradiction.
  - rewrite filter_app. cbn. rewrite String.eqb_refl. cbn.
    rewrite app_nil_r. clear Inc.
    induction (llmIds s) as [|y l IH]; [reflexivity|].
    cbn. destruct (String.eqb y x) eqn:E.
    + apply String.eqb_eq in E. subst. exfalso. apply Absent. left. reflexivity.
    + cbn. f_equal. apply IH. intros Hin. apply Absent. right. exact Hin.
Qed.

(** X20. Switching LLM participants on selects exactly the profiles of kind
    LLM whose API key is set, in their order; switching them off
    empties the selection, and the next job-start call then sends no
    LLM ids. *)
Theorem toggleIncludeLlm_selects_keyed_llms
    (profiles : list ProfileRating) (s : State) (z : string) :
  let on := toggleIncludeLlm true profiles s in
  let off := toggleIncludeLlm false profiles s in
  includeLlm on = true
  /\ (In z (llmIds on) <->
      exists p c, In p profiles /\ id p = z /\ kind p = llm
                  /\ llm_config p = Some c /\ apiKeySet c = true)
  /\ includeLlm off = false /\ llmIds off = []
  /\ arg_llmIds (start_args off) = []
  /\ arg_llmIds (start_args on) = map id (filter selectable profiles).
Proof.
  cbv zeta. unfold toggleIncludeLlm. cbn. repeat split.
  - intros Hin. apply in_map_iff in Hin as (p & E & Hin).
    apply filter_In in Hin as [Hin Sel]. unfold selectable in Sel.
    apply andb_prop in Sel as [K Key].
    destruct (llm_config p) as [c|] eqn:L; [|discriminate Key].
    exists p, c. repeat split; auto. destruct (kind p); [discriminate K | reflexivity].
  - intros (p & c & Hin & E & K & L & Key).
    apply in_map_iff. exists p. split; [exact E|].
    apply filter_In. split; [exact Hin|].
    unfold selectable. rewrite K, L. exact Key.
Qed.

Lemma level_input_keeps_range (i : LevelInput) (s : State) :
  1 <= minLevel s <= maxLevel s /\ maxLevel s <= 12 ->
  1 <= minLevel (level_input i s) <= maxLevel (level_input i s)
  /\ maxLevel (level_input i s) <= 12.
Proof.
  intros Range. destruct i as [v | v]; cbn; lia.
Qed.

(** X21. Whatever integers are typed into the two level inputs, the range
    stays ordered and within 1..12. *)
Theorem level_inputs_keep_range (inputs : list LevelInput) (s : State) :
  1 <= minLevel s <= maxLevel s /\ maxLevel s <= 12 ->
  let s' := run_level_inputs inputs s in
  1 <= minLevel s' <= maxLevel s' /\ maxLevel s' <= 12.
Proof.
  cbv zeta. unfold run_level_inputs. revert s.
  induction inputs as [|i inputs IH]; intros s Range; [exact Range|].
  cbn [fold_left]. apply IH. apply level_input_keeps_range. exact Range.
Qed.

End SelfPlayMore.

(** * Navigation *)
Section Navigation.
Import UseNavigation.

(** X22. [goBack] only ever lands on the welcome view or on the settings
    home, and a second [goBack] is always on the welcome view: the
    way out is at most two steps from anywhere. *)
Theorem goBack_twice_reaches_welcome (s : State) :
  let once := navigate GoBack s in
  (mode once = welcome \/ (mode once = settings /\ settingsPage once = home))
  /\ mode (navigate GoBack once) = welcome.
Proof.
  destruct s as [[] []]; cbn; auto.
Qed.

End Navigation.

(** * The board and the move pipeline *)
Section BoardCells.
Import Types Board.

Lemma stone_index_back (size index : Z) :
  0 < size -> 0 <= index ->
  stone_y size index * size + stone_x size index = index.
Proof.
  intros Pos Nonneg. unfold stone_x, stone_y.
  rewrite Z.rem_mod_nonneg by lia.
  pose proof (Z.div_mod index size ltac:(lia)). lia.
Qed.

(** X23. A stone kept at an array index is drawn at the coordinates that
    lead back to that index, and a click on a cell leads to the index
    whose stone would be drawn there. *)
Theorem stone_coordinates_round_trip (size : Z) :
  0 < size ->
  (forall index, 0 <= index ->
     stone_y size index * size + stone_x size index = index
     /\ 0 <= stone_x size index < size /\ 0 <= stone_y size index)
  /\ (forall col row, 0 <= col < size -> 0 <= row ->
        stone_x size (row * size + col) = col
        /\ stone_y size (row * size + col) = row).
Proof.
  intros Pos. unfold stone_x, stone_y. split.
  - intros index Nonneg. rewrite Z.rem_mod_nonneg by lia.
    pose proof (Z.div_mod index size ltac:(lia)) as DM.
    pose proof (Z.mod_pos_bound index size Pos) as Bound.
    pose proof (Z.div_pos index size Nonneg Pos) as Q.
    repeat split; lia.
  - intros col row Col Row.
    rewrite Z.rem_mod_nonneg by nia.
    rewrite Z.add_comm, Z.mod_add by lia.
    rewrite Z.div_add by lia.
    rewrite Z.mod_small, Z.div_small by lia. lia.
Qed.

Lemma element_eqb_eq (a b : option (option Player)) :
  element_eqb a b = true <-> a = b.
Proof.
  destruct a as [[[]|]|], b as [[[]|]|]; cbn; split; congruence.
Qed.

Lemma coord_eqb_eq (a b : option Z) : coord_eqb a b = true <-> a = b.
Proof.
  destruct a, b; cbn; split; try congruence.
  - intros E. apply Z.eqb_eq in E. congruence.
  - intros [= ->]. apply Z.eqb_refl.
Qed.

Lemma same_elements_same_list (a b : list (option Player)) :
  List.length a = List.length b ->
  forallb (fun i => element_eqb (nth_error a i) (nth_error b i))
          (seq 0 (List.length a)) = true ->
  a = b.
Proof.
  intros Len All. apply nth_error_ext. intros i.
  destruct (Nat.lt_ge_cases i (List.length a)) as [In | Out].
  - rewrite forallb_forall in All. apply element_eqb_eq.
    apply All. apply in_seq. lia.
  - rewrite (proj2 (nth_error_None a i)) by lia.
    rewrite (proj2 (nth_error_None b i)) by lia. reflexivity.
Qed.

(** X24. The memo comparator skips a re-render exactly when the click
    handler, the board size, the coordinates of the last move and the
    contents of the board are all the same: a changed cell is never
    missed, and an equal board in a new array does not re-render. *)
Theorem propsAreEqual_iff_same_view (prev next : BoardProps) :
  (array_ref (board prev) = array_ref (board next) ->
   cells (board prev) = cells (board next)) ->
  (propsAreEqual prev next = true
   <-> onCellClick prev = onCellClick next
       /\ boardSize prev = boardSize next
       /\ option_map move_x (lastMove prev) = option_map move_x (lastMove next)
       /\ option_map move_y (lastMove prev) = option_map move_y (lastMove next)
       /\ cells (board prev) = cells (board next)).
Proof.
  intros Heap. unfold propsAreEqual.
  destruct (Nat.eqb_spec (onCellClick prev) (onCellClick next)) as [Click | Click];
    cbn [negb]; [|split; [discriminate | tauto]].
  destruct (Z.eqb_spec (boardSize prev) (boardSize next)) as [Size | Size];
    cbn [negb]; [|split; [discriminate | tauto]].
  destruct (coord_eqb _ _) eqn:X at 1; cbn [negb orb];
    [|split; [discriminate|];
      intros (_ & _ & EX & _); apply coord_eqb_eq in EX; congruence].
  destruct (coord_eqb _ _) eqn:Y at 1; cbn [negb];
    [|split; [discriminate|];
      intros (_ & _ & _ & EY & _); apply coord_eqb_eq in EY; congruence].
  apply coord_eqb_eq in X. apply coord_eqb_eq in Y.
  destruct (Nat.eqb_spec (array_ref (board prev)) (array_ref (board next)))
    as [Ref | Ref].
  - split; [|reflexivity]. intros _. repeat split; auto.
  - destruct (Nat.eqb_spec (List.length (cells (board prev)))
                           (List.length (cells (board next)))) as [Len | Len];
      cbn [negb].
    + split.
      * intros All. repeat split; auto. apply same_elements_same_list; auto.
      * intros (_ & _ & _ & _ & Same). rewrite <- Same.
        apply forallb_forall. intros i _. apply element_eqb_eq. reflexivity.
    + split; [discriminate|]. intros (_ & _ & _ & _ & Same).
      rewrite Same in Len. contradiction.
Qed.

End BoardCells.

Section BoardClicks.
Import Types UseGame Board.

Variable World : Type.
Variable invoke : Command -> World -> Outcome * World.
Variable isTauri : bool.

(** X25. A click on a stone that is on the board does nothing: [makeMove]
    at the coordinates where the stone of an occupied index is drawn
    leaves hook, engine and trace untouched. *)
Theorem click_on_a_stone_is_refused
    (h : Hook) (index : Z) (p : Player) onRatingsChanged autoTriggerAi
    (s : Sys World) :
  0 < Types.boardSize (game h) ->
  board_at (game h) index = Some p ->
  makeMove World invoke isTauri h
    (stone_x (Types.boardSize (game h)) index)
    (stone_y (Types.boardSize (game h)) index)
    onRatingsChanged autoTriggerAi s
  = (tt, s).
Proof.
  intros Size Stone. apply makeMove_blocked_noop. unfold makeMove_blocked.
  assert (Nonneg : 0 <= index).
  { unfold board_at in Stone. destruct (Z.ltb_spec index 0); [discriminate | lia]. }
  rewrite (stone_index_back _ index Size Nonneg).
  rewrite Stone. cbn. apply orb_true_r.
Qed.

End BoardClicks.

(** * The new-game dialog *)
Section Dialog.
Import Selection NewGameDialog.

Lemma some_id_In (profiles : list ProfileRating) (x : string) :
  some_id profiles x = true <-> In x (map id profiles).
Proof.
  unfold some_id. rewrite existsb_exists, in_map_iff. split.
  - intros (p & Hin & E). apply String.eqb_eq in E. eauto.
  - intros (p & E & Hin). exists p. split; [exact Hin|].
    apply String.eqb_eq. exact E.
Qed.

Lemma id_at_In (profiles : list ProfileRating) (i : nat) (d : string) :
  (i < List.length profiles)%nat ->
  In (id_at profiles i d) (map id profiles)
  /\ forall d', id_at profiles i d' = id_at profiles i d.
Proof.
  intros Lt. unfold id_at.
  destruct (nth_error profiles i) as [p|] eqn:E.
  - split; [|reflexivity]. apply in_map. eapply nth_error_In. exact E.
  - apply nth_error_None in E. lia.
Qed.

Lemma default_id_stable (profiles : list ProfileRating) (i : nat) (x : string) :
  (i < List.length profiles)%nat ->
  let chosen :=
    if String.eqb x "" || negb (some_id profiles x) then id_at profiles i x else x in
  In chosen (map id profiles)
  /\ (if String.eqb chosen "" || negb (some_id profiles chosen)
      then id_at profiles i chosen else chosen) = chosen.
Proof.
  intros Lt. cbv zeta.
  destruct (id_at_In profiles i x Lt) as [InAt Indep].
  destruct (String.eqb x "" || negb (some_id profiles x)) eqn:C.
  - split; [exact InAt|].
    destruct (String.eqb (id_at profiles i x) ""
              || negb (some_id profiles (id_at profiles i x)));
      [apply Indep | reflexivity].
  - split; [|rewrite C; reflexivity].
    apply orb_false_elim in C as [_ C]. apply negb_false_iff in C.
    apply some_id_In. exact C.
Qed.

(** X26. With at least one profile, the effect that fills in the two
    engine ids leaves both naming existing profiles, and running it
    again changes nothing (so it cannot loop). *)
Theorem init_ai_ids_names_existing_profiles
    (profiles : list ProfileRating) (ids : string * string) :
  profiles <> [] ->
  let chosen := init_ai_ids profiles ids in
  In (fst chosen) (map id profiles)
  /\ In (snd chosen) (map id profiles)
  /\ init_ai_ids profiles chosen = chosen.
Proof.
  intros Nonempty. cbv zeta. destruct ids as [black white].
  assert (Len : (0 < List.length profiles)%nat).
  { destruct profiles; [contradiction | cbn; lia]. }
  unfold init_ai_ids.
  assert (Guard : (0 <? List.length profiles)%nat = true)
    by (apply Nat.ltb_lt; exact Len).
  rewrite Guard.
  destruct (default_id_stable profiles 0 black Len) as [InB StableB].
  assert (LenW : (Nat.min 1 (List.length profiles - 1) < List.length profiles)%nat)
    by lia.
  destruct (default_id_stable profiles _ white LenW) as [InW StableW].
  cbv zeta in InB, StableB, InW, StableW.
  cbn [fst snd]. repeat split; auto.
  rewrite StableB, StableW. reflexivity.
Qed.

End Dialog.

(** * App: banner, file names and the new-game handler *)
Section AppMore.
Import Types UseGame App Runs AppHandlers.

Variable World : Type.
Variable invoke : Command -> World -> Outcome * World.
Variable isTauri : bool.

(** X27. Dismiss clears the game error only: a self-play error that is
    present stays in the banner after [clearError], and the Retry
    button is gone. *)
Theorem dismiss_leaves_self_play_error (s : Sys World) (sp : UseSelfPlay.State) :
  let g := hook (snd (clearError World s)) in
  errorBanner g sp
  = if truthy_string (UseSelfPlay.error sp)
    then option_map (fun text => {| message := text; retry_button := false |})
                    (UseSelfPlay.error sp)
    else None.
Proof.
  cbv zeta. unfold errorBanner, App.error, or_string. cbn.
  destruct (UseSelfPlay.error sp) as [text|]; cbn; [|reflexivity].
  destruct (negb (String.eqb text "")); reflexivity.
Qed.

(** X28. After [makeMove] the banner offers Retry exactly for a failed
    automatic reply: a failed human move shows its message without
    Retry, a failed reply shows its message with Retry. *)
Theorem banner_offers_retry_for_reply_failure_only
    (h : Hook) (w : World) (x y : Z) onRatingsChanged autoTriggerAi
    (sp : UseSelfPlay.State) (msg : string) :
  msg <> "" ->
  let r := run_makeMove World invoke isTauri h w x y onRatingsChanged autoTriggerAi in
  (In (EvCall (make_move x y) (Failed msg)) (trace r) ->
   errorBanner (hook r) sp = Some {| message := msg; retry_button := false |})
  /\ (In (EvCall ai_move (Failed msg)) (trace r) ->
      errorBanner (hook r) sp = Some {| message := msg; retry_button := true |}).
Proof.
  intros Nonempty. cbv zeta.
  assert (Shown : String.eqb msg "" = false) by (apply String.eqb_neq; exact Nonempty).
  destruct (makeMove_blocked h x y) eqn:Guards.
  - rewrite (makeMove_blocked_trace World invoke isTauri h w x y _ _ Guards).
    split; intros [].
  - pose proof (makeMove_trace_shape World invoke isTauri h w x y
                  onRatingsChanged autoTriggerAi Guards) as Shape.
    cbv zeta in Shape.
    destruct Shape as [(m & T & G & R & E) | [(s1 & tl & T & Tl & O & G)
      | [(s1 & m & T & O & G & R & E) | (s1 & s2 & tl & T & Tl & O & G)]]];
      rewrite T; unfold errorBanner, App.error, or_string.
    + split; intros Hin;
        repeat (destruct Hin as [Hin | Hin]; try discriminate Hin);
        try contradiction.
      inversion Hin; subst m. rewrite E, R. cbn.
      repeat (rewrite Shown; cbn). reflexivity.
    + split; intros Hin; destruct Tl as [-> | ->];
        repeat (destruct Hin as [Hin | Hin]; try discriminate Hin);
        contradiction.
    + split; intros Hin;
        repeat (destruct Hin as [Hin | Hin]; try discriminate Hin);
        try contradiction.
      inversion Hin; subst m. rewrite E, R, G. cbn.
      repeat (rewrite Shown; cbn).
      unfold reply_owed in O. destruct (result s1); [discriminate O|].
      reflexivity.
    + split; intros Hin; destruct Tl as [-> | ->];
        repeat (destruct Hin as [Hin | Hin]; try discriminate Hin);
        contradiction.
Qed.


End AppMore.

Section FileNames.
Import AppHandlers.

Lemma length_append (a b : string) :
  String.length (a ++ b) = (String.length a + String.length b)%nat.
Proof. induction a as [|c a IH]; cbn; [reflexivity | rewrite IH; reflexivity]. Qed.

Lemma substring_whole (b : string) : substring 0 (String.length b) b = b.
Proof. induction b as [|c b IH]; cbn; [reflexivity | rewrite IH; reflexivity]. Qed.

Lemma substring_after (a b : string) :
  substring (String.length a) (String.length b) (a ++ b) = b.
Proof. induction a as [|c a IH]; cbn; [apply substring_whole | exact IH]. Qed.

Lemma substring_before (a b : string) :
  substring 0 (String.length a) (a ++ b) = a.
Proof.
  induction a as [|c a IH]; cbn; [destruct b; reflexivity | rewrite IH; reflexivity].
Qed.

Lemma endsWith_append (a b : string) : endsWith (a ++ b) b = true.
Proof.
  unfold endsWith. rewrite length_append.
  replace (String.length a + String.length b - String.length b)%nat
    with (String.length a) by lia.
  rewrite substring_after, String.eqb_refl.
  apply andb_true_intro. split; [apply Nat.leb_le; lia | reflexivity].
Qed.

Lemma append_assoc (a b c : string) : ((a ++ b) ++ c = a ++ (b ++ c))%string.
Proof. induction a as [|x a IH]; cbn; [reflexivity | rewrite IH; reflexivity]. Qed.

(** X30. The joined path always ends with the file name and starts with
    the directory, with one separator put between only when the
    directory does not already end with one: a trailing slash on the
    directory makes no difference to the result. *)
Theorem joinUserPath_adds_one_separator (dir filename : string) :
  endsWith (joinUserPath dir filename) filename = true
  /\ prefix dir (joinUserPath dir filename) = true
  /\ (endsWith dir "/" = false -> endsWith dir "\" = false ->
      joinUserPath (dir ++ "/") filename = joinUserPath dir filename).
Proof.
  repeat split.
  - unfold joinUserPath.
    destruct (endsWith dir "/" || endsWith dir "\").
    + apply endsWith_append.
    + rewrite <- append_assoc. apply endsWith_append.
  - unfold joinUserPath.
    destruct (endsWith dir "/" || endsWith dir "\");
      apply prefix_correct; apply substring_before.
  - intros NoSlash NoBack. unfold joinUserPath.
    rewrite NoSlash, NoBack. cbn [orb].
    rewrite (endsWith_append dir "/"). cbn [orb].
    apply append_assoc.
Qed.

End FileNames.

(** Worked runs for the further properties. *)
Section MoreRuns.
Import Types UseSelfPlay Selection Samples.

Lemma busy_outlives_progress_and_stop_run :
  let es := [ProgressEvent 2000 2000 Scenario.ten_of_hundred;
             StopPressed (Some "no job");
             StartPressed 3000 (StartResolved (Some true));
             ProgressEvent 4000 4000 Scenario.none_of_hundred] in
  busy (run_midrun es running) = true
  /\ report (run_midrun es running) = report running.
Proof.
  apply (busy_outlives_progress_and_stop
           [ProgressEvent 2000 2000 Scenario.ten_of_hundred;
            StopPressed (Some "no job");
            StartPressed 3000 (StartResolved (Some true));
            ProgressEvent 4000 4000 Scenario.none_of_hundred] running).
  reflexivity.
Defined.

Lemma anchor_survives_progress_run :
  startRef (run_midrun [ProgressEvent 2000 2000 Scenario.none_of_hundred;
                        ProgressEvent 5000 5001 Scenario.ten_of_hundred] running)
  = Some 1000.
Proof.
  apply (anchor_survives_progress
           [ProgressEvent 2000 2000 Scenario.none_of_hundred;
            ProgressEvent 5000 5001 Scenario.ten_of_hundred] running 1000).
  - reflexivity.
  - reflexivity.
  - lia.
Defined.

Lemma formatDuration_by_whole_seconds_run :
  formatDuration (-1) = "0s"
  /\ formatDuration 59.5 = String_of 59 ++ "s"
  /\ formatDuration 125 = String_of 2 ++ "m " ++ padStart2 (String_of 5) ++ "s"
  /\ formatDuration 7325
     = String_of 2 ++ "h " ++ padStart2 (String_of 2) ++ "m".
Proof.
  split; [|split; [|split]].
  - apply (proj1 (formatDuration_by_whole_seconds (-1))).
    vm_compute. discriminate.
  - apply (proj1 (proj2 (formatDuration_by_whole_seconds 59.5))).
    + vm_compute. reflexivity.
    + vm_compute. reflexivity.
  - apply (proj1 (proj2 (proj2 (formatDuration_by_whole_seconds 125)))).
    vm_compute. split; [discriminate | reflexivity].
  - apply (proj2 (proj2 (proj2 (formatDuration_by_whole_seconds 7325)))).
    vm_compute. discriminate.
Defined.

Lemma toggleLlmId_sets_membership_run :
  let s' := toggleLlmId "llm-a" true initial in
  (In "llm-a" (llmIds s') <-> "llm-a" = "llm-a" \/ In "llm-a" (llmIds initial))
  /\ (NoDup (llmIds initial) -> NoDup (llmIds s'))
  /\ includeLlm s' = includeLlm initial /\ busy s' = busy initial.
Proof.
  exact (toggleLlmId_sets_membership "llm-a" true initial "llm-a").
Defined.

Lemma level_inputs_keep_range_run :
  let s' := run_level_inputs [MinLevelInput 20; MaxLevelInput (-3); MinLevelInput 0]
              initial in
  1 <= minLevel s' <= maxLevel s' /\ maxLevel s' <= 12.
Proof.
  apply (level_inputs_keep_range
           [MinLevelInput 20; MaxLevelInput (-3); MinLevelInput 0] initial).
  cbn. lia.
Defined.

Lemma stone_coordinates_round_trip_run :
  (forall index, 0 <= index ->
     Board.stone_y 15 index * 15 + Board.stone_x 15 index = index
     /\ 0 <= Board.stone_x 15 index < 15 /\ 0 <= Board.stone_y 15 index)
  /\ (forall col row, 0 <= col < 15 -> 0 <= row ->
        Board.stone_x 15 (row * 15 + col) = col
        /\ Board.stone_y 15 (row * 15 + col) = row).
Proof.
  apply (stone_coordinates_round_trip 15). lia.
Defined.

Lemma propsAreEqual_iff_same_view_run :
  Board.propsAreEqual board_before board_again = true
  <-> Board.onCellClick board_before = Board.onCellClick board_again
      /\ Board.boardSize board_before = Board.boardSize board_again
      /\ option_map move_x (Board.lastMove board_before)
         = option_map move_x (Board.lastMove board_again)
      /\ option_map move_y (Board.lastMove board_before)
         = option_map move_y (Board.lastMove board_again)
      /\ Board.cells (Board.board board_before)
         = Board.cells (Board.board board_again).
Proof.
  apply (propsAreEqual_iff_same_view board_before board_again).
  intros _. reflexivity.
Defined.

Lemma click_on_a_stone_is_refused_run :
  let s := UseGame.start_of (list UseGame.Outcome) human_moved
             [UseGame.Resolved Scenario.after_ai] in
  UseGame.makeMove (list UseGame.Outcome) UseGame.scripted true human_moved
    (Board.stone_x 15 112) (Board.stone_y 15 112) None true s
  = (tt, s).
Proof.
  apply (click_on_a_stone_is_refused (list UseGame.Outcome) UseGame.scripted true
           human_moved 112 B None true).
  - reflexivity.
  - reflexivity.
Defined.

Lemma init_ai_ids_names_existing_profiles_run :
  let chosen := NewGameDialog.init_ai_ids ladder ("", "gone") in
  In (fst chosen) (map id ladder)
  /\ In (snd chosen) (map id ladder)
  /\ NewGameDialog.init_ai_ids ladder chosen = chosen.
Proof.
  apply (init_ai_ids_names_existing_profiles ladder ("", "gone")).
  discriminate.
Defined.

Lemma banner_offers_retry_for_reply_failure_only_run :
  let r := UseGame.run_makeMove (list UseGame.Outcome) UseGame.scripted true
             UseGame.initial
             [UseGame.Resolved Scenario.after_human; UseGame.Rejected "engine crashed"]
             7 7 None true in
  (In (UseGame.EvCall (UseGame.make_move 7 7) (UseGame.Failed "engine crashed"))
      (UseGame.trace r) ->
   App.errorBanner (UseGame.hook r) initial
   = Some {| App.message := "engine crashed"; App.retry_button := false |})
  /\ (In (UseGame.EvCall UseGame.ai_move (UseGame.Failed "engine crashed"))
         (UseGame.trace r) ->
      App.errorBanner (UseGame.hook r) initial
      = Some {| App.message := "engine crashed"; App.retry_button := true |}).
Proof.
  apply (banner_offers_retry_for_reply_failure_only (list UseGame.Outcome)
           UseGame.scripted true UseGame.initial
           [UseGame.Resolved Scenario.after_human; UseGame.Rejected "engine crashed"]
           7 7 None true initial "engine crashed").
  discriminate.
Defined.

Lemma joinUserPath_adds_one_separator_run :
  AppHandlers.endsWith (AppHandlers.joinUserPath "/home/u" "game.json") "game.json"
  = true
  /\ prefix "/home/u" (AppHandlers.joinUserPath "/home/u" "game.json") = true
  /\ (AppHandlers.endsWith "/home/u" "/" = false ->
      AppHandlers.endsWith "/home/u" "\" = false ->
      AppHandlers.joinUserPath ("/home/u" ++ "/") "game.json"
      = AppHandlers.joinUserPath "/home/u" "game.json").
Proof.
  exact (joinUserPath_adds_one_separator "/home/u" "game.json").
Defined.

End MoreRuns.
